(** * Verification of the dashboard client manager

    Shallow embedding of [src/app/backend/client/manager.go]: the request
    header model, credential extraction, the secure-mode decision, the
    per-request client resolution, the access probe and the two regular
    expressions used to derive display names. *)

From Stdlib Require Import Ascii ZArith Lia.
From stdpp Require Import gmap strings list fin_maps.

Set Default Proof Using "Type".

(** ** Go strings

    A Go [string] is a byte sequence; [len], slicing and the functions of
    package [strings] work on bytes. Bytes are [ascii], strings are [string]. *)

Module GoString.

(** [len(s)] *)
Abbreviation len := String.length.

(** [s[n:]] for [n <= len s]. *)
Fixpoint sliceFrom (n : nat) (s : string) : string :=
  match n, s with
  | 0, _ => s
  | S n', String _ s' => sliceFrom n' s'
  | S _, EmptyString => EmptyString
  end.

(** [s[:n]] for [n <= len s]. *)
Fixpoint sliceTo (n : nat) (s : string) : string :=
  match n, s with
  | 0, _ => EmptyString
  | S n', String c s' => String c (sliceTo n' s')
  | S _, EmptyString => EmptyString
  end.

(** [strings.HasPrefix(s, prefix)]. *)
Fixpoint HasPrefix (s prefix : string) {struct prefix} : bool :=
  match prefix with
  | EmptyString => true
  | String c prefix' =>
      match s with
      | EmptyString => false
      | String d s' => if Ascii.eqb d c then HasPrefix s' prefix' else false
      end
  end.

(** [strings.TrimPrefix(s, prefix)]. *)
Definition TrimPrefix (s prefix : string) : string :=
  if HasPrefix s prefix then sliceFrom (len prefix) s else s.

(** Longest prefix of [s] made of bytes satisfying [p], and what follows it. *)
Fixpoint takeWhile (p : ascii -> bool) (s : string) : string :=
  match s with
  | EmptyString => EmptyString
  | String c s' => if p c then String c (takeWhile p s') else EmptyString
  end.

Fixpoint dropWhile (p : ascii -> bool) (s : string) : string :=
  match s with
  | EmptyString => EmptyString
  | String c s' => if p c then dropWhile p s' else s
  end.

Fixpoint allBytes (p : ascii -> bool) (s : string) : bool :=
  match s with
  | EmptyString => true
  | String c s' => p c && allBytes p s'
  end.

Definition isEmpty (s : string) : bool :=
  match s with EmptyString => true | String _ _ => false end.

End GoString.

Import GoString.

(** ** Regular expressions

    The fragment of Go's [regexp] syntax used by the two patterns of the
    manager: literals, greedy repetition of a one-byte class, sequencing,
    numbered capture groups and the two text anchors. Matching is
    leftmost-first: the match Go reports is the one a backtracking search
    finds first, trying the longest repetition first. *)

Module Regexp.

Inductive regexp : Type :=
  | Lit (w : string)
  | Star (p : ascii -> bool)
  | Plus (p : ascii -> bool)
  | Seq (r1 r2 : regexp)
  | Group (n : nat) (r : regexp)
  | BeginText
  | EndText.

(** Number of capture groups, [Regexp.NumSubexp]. *)
Fixpoint NumSubexp (r : regexp) : nat :=
  match r with
  | Seq r1 r2 => NumSubexp r1 + NumSubexp r2
  | Group _ r' => S (NumSubexp r')
  | _ => 0
  end.

(** A match in progress: [pos] bytes of the text are consumed, [rest] is
    what remains, [caps] holds the text of each group (index 0 is the
    whole match, unset groups are empty). *)
Definition cont (R : Type) : Type := nat -> string -> list string -> option R.

Fixpoint star {R} (p : ascii -> bool) (pos : nat) (rest : string)
    (caps : list string) (k : cont R) : option R :=
  match rest with
  | EmptyString => k pos rest caps
  | String c rest' =>
      if p c then
        match star p (S pos) rest' caps k with
        | Some r => Some r
        | None => k pos rest caps
        end
      else k pos rest caps
  end.

Fixpoint run {R} (r : regexp) (pos : nat) (rest : string)
    (caps : list string) (k : cont R) : option R :=
  match r with
  | Lit w =>
      if HasPrefix rest w then k (pos + len w) (sliceFrom (len w) rest) caps
      else None
  | Star p => star p pos rest caps k
  | Plus p =>
      match rest with
      | EmptyString => None
      | String c rest' => if p c then star p (S pos) rest' caps k else None
      end
  | Seq r1 r2 =>
      run r1 pos rest caps (fun pos' rest' caps' => run r2 pos' rest' caps' k)
  | Group n r' =>
      run r' pos rest caps
        (fun pos' rest' caps' =>
           k pos' rest' (<[n := sliceTo (pos' - pos) rest]> caps'))
  | BeginText => if Nat.eqb pos 0 then k pos rest caps else None
  | EndText =>
      match rest with
      | EmptyString => k pos rest caps
      | String _ _ => None
      end
  end.

(** One match: where it starts and ends in the text, and the submatches. *)
Record submatch : Type := Submatch {
  matchStart : nat;
  matchEnd : nat;
  matchGroups : list string
}.

(** The match that starts exactly at [pos], if any. *)
Definition matchAt (re : regexp) (pos : nat) (rest : string) : option submatch :=
  run re pos rest (replicate (S (NumSubexp re)) EmptyString)
    (fun pos' _ caps' =>
       Some (Submatch pos pos' (<[0 := sliceTo (pos' - pos) rest]> caps'))).

(** The leftmost match at or after [pos]. *)
Fixpoint findFrom (re : regexp) (pos : nat) (rest : string) : option submatch :=
  match matchAt re pos rest with
  | Some m => Some m
  | None =>
      match rest with
      | EmptyString => None
      | String _ rest' => findFrom re (S pos) rest'
      end
  end.

(** [Regexp.FindStringSubmatch]: [nil] (here [None]) when there is no match. *)
Definition FindStringSubmatch (re : regexp) (s : string) : option (list string) :=
  matchGroups <$> findFrom re 0 s.

(** [Regexp.ReplaceAllString] for a pattern that cannot match the empty
    string (both patterns of the manager contain a literal): every match is
    replaced by the template [tmpl] applied to its submatches, the text
    between matches is kept. [fuel] bounds the number of matches. *)
Fixpoint replaceAll (fuel : nat) (re : regexp) (tmpl : list string -> string)
    (pos : nat) (rest : string) : string :=
  match fuel with
  | 0 => rest
  | S fuel' =>
      match findFrom re pos rest with
      | None => rest
      | Some m =>
          sliceTo (matchStart m - pos) rest +:+ tmpl (matchGroups m) +:+
          replaceAll fuel' re tmpl (matchEnd m)
            (sliceFrom (matchEnd m - pos) rest)
      end
  end.

Definition ReplaceAllString (re : regexp) (src : string)
    (tmpl : list string -> string) : string :=
  replaceAll (S (len src)) re tmpl 0 src.

(** The template ["$n"]. *)
Definition dollar (n : nat) (groups : list string) : string :=
  default EmptyString (groups !! n).

(** Byte classes. [\w] is ASCII-only in Go. *)
Definition inRange (lo hi : nat) (c : ascii) : bool :=
  (lo <=? nat_of_ascii c) && (nat_of_ascii c <=? hi).

Definition isWord (c : ascii) : bool :=
  inRange 48 57 c || inRange 65 90 c || inRange 97 122 c || Ascii.eqb c "_".

(** [[\w-]] *)
Definition isWordOrHyphen (c : ascii) : bool :=
  isWord c || Ascii.eqb c "-".

(** [[\w-_]]: after the class [\w] the hyphen cannot open a range, so the
    class is [\w] with the two bytes [-] and [_]. *)
Definition isWordHyphenUnderscore (c : ascii) : bool :=
  isWord c || Ascii.eqb c "-" || Ascii.eqb c "_".

(** [.] without the [s] flag: any byte but the line feed. *)
Definition isDot (c : ascii) : bool := negb (Ascii.eqb c "010").

End Regexp.

Import Regexp.

(** ** Display names *)

Definition doubleQuote : string := String (ascii_of_nat 34) EmptyString.

(** The pattern of [getUsernameFromError]: begin of text, any bytes, the
    literal [ User ] and a double quote, group 1 of any bytes, a double
    quote and the literal [ cannot ], any bytes, end of text. *)
Definition usernameFromErrorRe : regexp :=
  Seq BeginText
  (Seq (Star isDot)
  (Seq (Lit (" User " +:+ doubleQuote))
  (Seq (Group 1 (Star isDot))
  (Seq (Lit (doubleQuote +:+ " cannot "))
  (Seq (Star isDot) EndText))))).

(** [getUsernameFromError], on the text [err.Error()]. *)
Definition getUsernameFromErrorText (text : string) : string :=
  ReplaceAllString usernameFromErrorRe text (dollar 1).

(** [(?P<ignore>[\w-]+):(?P<type>[\w-]+):(?P<namespace>[\w-_]+):(?P<name>[\w-]+)] *)
Definition usernameRe : regexp :=
  Seq (Group 1 (Plus isWordOrHyphen))
  (Seq (Lit ":")
  (Seq (Group 2 (Plus isWordOrHyphen))
  (Seq (Lit ":")
  (Seq (Group 3 (Plus isWordHyphenUnderscore))
  (Seq (Lit ":")
       (Group 4 (Plus isWordOrHyphen))))))).

Definition getUsername (name : string) : string :=
  let groups := 5 in
  let nameGroupIdx := 4 in
  match FindStringSubmatch usernameRe name with
  | None => name
  | Some match_ =>
      if negb (Nat.eqb (length match_) groups) then name
      else default EmptyString (match_ !! nameGroupIdx)
  end.

(** ** Go runtime

    A call either returns or panics; dereferencing a nil pointer panics.
    A Go function that returns [(T, error)] and sets exactly one of the two
    is a [result]. *)

Inductive panic : Type := NilPointerDereference.

Inductive exec (A : Type) : Type :=
  | Done (a : A)
  | Panicked (p : panic).
Arguments Done {A} a.
Arguments Panicked {A} p.

Definition andThen {A B : Type} (m : exec A) (f : A -> exec B) : exec B :=
  match m with
  | Done a => f a
  | Panicked p => Panicked p
  end.

Notation "x <- m ;; k" := (andThen m (fun x => k))
  (at level 100, m at next level, right associativity, only parsing).

(** Reasons of an API status error, [metav1.StatusReason]. *)
Inductive StatusReason : Type :=
  | StatusReasonBadRequest
  | StatusReasonUnauthorized
  | StatusReasonInvalid
  | StatusReasonForbidden
  | StatusReasonUnknown.

(** A Go [error] value: an API status error with its reason and message, or
    any other error with its text. *)
Inductive error : Type :=
  | StatusError (reason : StatusReason) (message : string)
  | PlainError (text : string).

#[export] Instance StatusReason_eq_dec : EqDecision StatusReason.
Proof. solve_decision. Defined.
#[export] Instance error_eq_dec : EqDecision error.
Proof. solve_decision. Defined.

(** [err.Error()] *)
Definition errorText (e : error) : string :=
  match e with
  | StatusError _ message => message
  | PlainError text => text
  end.

(** [k8serrors.IsForbidden] *)
Definition IsForbidden (e : error) : bool :=
  match e with
  | StatusError StatusReasonForbidden _ => true
  | _ => false
  end.

(** Modelled from the spec: package [errors] of the backend is not under
    src/; its constructors build the bad-request, unauthorized and invalid
    conditions of the error taxonomy, and [MsgLoginUnauthorizedError] is the
    fixed login-required message. *)
Definition NewBadRequest (msg : string) : error :=
  StatusError StatusReasonBadRequest msg.
Definition NewUnauthorized (msg : string) : error :=
  StatusError StatusReasonUnauthorized msg.
Definition NewInvalid (msg : string) : error :=
  StatusError StatusReasonInvalid msg.
Definition MsgLoginUnauthorizedError : string := "MSG_LOGIN_UNAUTHORIZED_ERROR".

Inductive result (A : Type) : Type :=
  | Ok (a : A)
  | Err (e : error).
Arguments Ok {A} a.
Arguments Err {A} e.

(** ** Requests and their headers *)

Module Textproto.

Definition isLower (c : ascii) : bool := inRange 97 122 c.
Definition isUpper (c : ascii) : bool := inRange 65 90 c.
Definition toUpper (c : ascii) : ascii := ascii_of_nat (nat_of_ascii c - 32).
Definition toLower (c : ascii) : ascii := ascii_of_nat (nat_of_ascii c + 32).

Fixpoint memByte (c : ascii) (s : string) : bool :=
  match s with
  | EmptyString => false
  | String d s' => Ascii.eqb c d || memByte c s'
  end.

(** Bytes allowed in a header field name (RFC 7230 token). *)
Definition validHeaderFieldByte (c : ascii) : bool :=
  inRange 48 57 c || isUpper c || isLower c || memByte c "!#$%&'*+-.^_`|~".

Fixpoint canonicalCase (upper : bool) (s : string) : string :=
  match s with
  | EmptyString => EmptyString
  | String c s' =>
      let c' :=
        if upper && isLower c then toUpper c
        else if negb upper && isUpper c then toLower c
        else c in
      String c' (canonicalCase (Ascii.eqb c' "-") s')
  end.

(** [textproto.CanonicalMIMEHeaderKey]: first letter and letters after a
    hyphen in upper case, the others in lower case; a key with a byte that
    is not allowed in a field name is returned unchanged. *)
Definition CanonicalMIMEHeaderKey (s : string) : string :=
  if allBytes validHeaderFieldByte s then canonicalCase true s else s.

End Textproto.

(** [http.Header]: field name to the values of that field, in order. The
    nil map is the empty map. *)
Abbreviation Header := (gmap string (list string)).

(** [Header.Get]: the first value of the canonical form of [key], or the
    empty string. *)
Definition Header_Get (h : Header) (key : string) : string :=
  match h !! Textproto.CanonicalMIMEHeaderKey key with
  | Some (v :: _) => v
  | _ => EmptyString
  end.

(** [tls.ConnectionState]; only its presence is inspected. *)
Record ConnectionState : Type := { HandshakeComplete : bool }.

(** What the manager reads of a non-nil [*restful.Request]: the header and
    the TLS state of the [*http.Request] it wraps. *)
Record Request : Type := {
  RequestHeader : Header;
  TLS : option ConnectionState
}.

(** [req.HeaderParameter(name)] on a request pointer. *)
Definition HeaderParameter (req : option Request) (name : string) : exec string :=
  match req with
  | None => Panicked NilPointerDereference
  | Some r => Done (Header_Get (RequestHeader r) name)
  end.

(** [req.Request.Header] and [req.Request.TLS] on a request pointer. *)
Definition headerOf (req : option Request) : exec Header :=
  match req with
  | None => Panicked NilPointerDereference
  | Some r => Done (RequestHeader r)
  end.

Definition tlsOf (req : option Request) : exec (option ConnectionState) :=
  match req with
  | None => Panicked NilPointerDereference
  | Some r => Done (TLS r)
  end.

(** ** Constants of the manager *)

Definition DefaultQPS : Z := 1000000.
Definition DefaultBurst : Z := 1000000.
Definition DefaultContentType : string := "application/vnd.kubernetes.protobuf".
Definition DefaultCmdConfigName : string := "kubernetes".
Definition JWETokenHeader : string := "jweToken".
Definition DefaultUserAgent : string := "dashboard".
Definition ImpersonateUserExtraHeader : string := "Impersonate-Extra-".

(** ** Identity descriptors, [api.AuthInfo]

    Only the fields the manager sets; a nil slice is the empty list and a
    nil map the empty map. *)
Record AuthInfo : Type := {
  Token : string;
  Impersonate : string;
  ImpersonateGroups : list string;
  ImpersonateUserExtra : gmap string (list string)
}.

(** [authApi.TokenManager]: the decryption collaborator. [Decrypt] returns a
    Go pair, which the manager hands on as it is. *)
Record TokenManager : Type := {
  Decrypt : string -> option AuthInfo * option error
}.

(** ** Credential extraction *)

Definition extractTokenFromHeader (authHeader : string) : string :=
  if HasPrefix authHeader "Bearer " then TrimPrefix authHeader "Bearer "
  else EmptyString.

(** The loop over [req.Request.Header] that collects the extra fields. The
    keys it writes are distinct for distinct header names, so the order in
    which Go visits the map does not show in the result. *)
Definition collectExtra (h : Header) : gmap string (list string) :=
  map_fold
    (fun headerName headerValues extra =>
       if HasPrefix headerName ImpersonateUserExtraHeader then
         let extraName := sliceFrom (len ImpersonateUserExtraHeader) headerName in
         <[extraName := headerValues]> extra
       else extra)
    ∅ h.

Definition extractAuthInfo (tokenManager : option TokenManager)
    (req : option Request) : exec (option AuthInfo * option error) :=
  authHeader <- HeaderParameter req "Authorization";;
  impersonationHeader <- HeaderParameter req "Impersonate-User";;
  jweToken <- HeaderParameter req JWETokenHeader;;
  let token := extractTokenFromHeader authHeader in
  if 0 <? len token then
    if 0 <? len impersonationHeader then
      header <- headerOf req;;
      let groupsImpersonationHeader :=
        default [] (header !! "Impersonate-Group") in
      Done (Some {| Token := token;
                    Impersonate := impersonationHeader;
                    ImpersonateGroups :=
                      if 0 <? length groupsImpersonationHeader
                      then groupsImpersonationHeader else [];
                    ImpersonateUserExtra := collectExtra header |},
            None)
    else
      Done (Some {| Token := token;
                    Impersonate := EmptyString;
                    ImpersonateGroups := [];
                    ImpersonateUserExtra := ∅ |},
            None)
  else
    match tokenManager with
    | Some tm =>
        if 0 <? len jweToken then Done (Decrypt tm jweToken)
        else Done (None, Some (NewUnauthorized MsgLoginUnauthorizedError))
    | None => Done (None, Some (NewUnauthorized MsgLoginUnauthorizedError))
    end.

Definition containsAuthInfo (req : option Request) : exec bool :=
  authHeader <- HeaderParameter req "Authorization";;
  jweToken <- HeaderParameter req JWETokenHeader;;
  Done ((0 <? len authHeader) || (0 <? len jweToken)).

(** ** Connection configurations and clients *)

(** [rest.Config], the fields the manager reads or writes. *)
Record RestConfig : Type := {
  Host : string;
  CAFile : string;
  CAData : string;
  Insecure : bool;
  QPS : Z;
  Burst : Z;
  ContentType : string;
  UserAgent : string
}.

(** [api.Cluster], [api.Context] and [api.Config] of package clientcmd. *)
Record Cluster : Type := {
  Server : string;
  CertificateAuthority : string;
  CertificateAuthorityData : string;
  InsecureSkipTLSVerify : bool
}.

Record Context : Type := {
  ContextCluster : string;
  ContextAuthInfo : string
}.

Record CmdConfig : Type := {
  Clusters : gmap string Cluster;
  AuthInfos : gmap string (option AuthInfo);
  Contexts : gmap string Context;
  CurrentContext : string
}.

(** [api.NewConfig()] *)
Definition NewConfig : CmdConfig :=
  {| Clusters := ∅; AuthInfos := ∅; Contexts := ∅; CurrentContext := EmptyString |}.

(** [v1.SelfSubjectAccessReview]: the spec is kept opaque, the status
    carries the verdict. *)
Record SelfSubjectAccessReview : Type := {
  ReviewSpec : string;
  Allowed : bool
}.

(** [v12.TokenReview] *)
Record TokenReview : Type := {
  ReviewToken : string;
  Username : string
}.

Inductive APIGroup : Type :=
  | CoreV1 | AppsV1 | BatchV1 | BatchV1beta1
  | AutoscalingV1 | StorageV1 | RbacV1 | NetworkingV1.

(** [rest.Interface] *)
Record RESTInterface : Type := { APIPath : string }.

(** [kubernetes.Interface]: a client is the bundle of its methods; each call
    to the cluster returns a value or an error. *)
Record KubernetesInterface : Type := {
  CreateSelfSubjectAccessReview :
    SelfSubjectAccessReview -> result SelfSubjectAccessReview;
  ServerVersion : result string;
  CreateTokenReview : TokenReview -> result TokenReview;
  RESTClient : APIGroup -> RESTInterface
}.

(** [apiextensionsclientset.Interface] and [pluginclientset.Interface] *)
Record APIExtensionsInterface : Type := { ExtensionsDiscovery : string }.
Record PluginInterface : Type := { DashboardV1alpha1 : RESTInterface }.

(** [clientapi.ResourceVerber], as [NewResourceVerber] assembles it. *)
Record ResourceVerber : Type := {
  verberClients : list RESTInterface;
  verberExtensions : RESTInterface;
  verberPlugin : RESTInterface;
  verberConfig : option RestConfig
}.

Definition NewResourceVerber (k8sClient : KubernetesInterface)
    (apiextensionsRestClient pluginRestClient : RESTInterface)
    (config : option RestConfig) : ResourceVerber :=
  {| verberClients :=
       RESTClient k8sClient <$>
         [CoreV1; AppsV1; BatchV1; BatchV1beta1;
          AutoscalingV1; StorageV1; RbacV1; NetworkingV1];
     verberExtensions := apiextensionsRestClient;
     verberPlugin := pluginRestClient;
     verberConfig := config |}.

(** The collaborators outside this file: the flags of [args.Holder], the
    client constructors, the two ways package clientcmd resolves a
    configuration, and the version of the binary. *)
Record Env : Type := {
  GetCertFile : string;
  GetKeyFile : string;
  GetEnableInsecureLogin : bool;
  GetEnableSkipLogin : bool;
  kubernetesNewForConfig : RestConfig -> result KubernetesInterface;
  apiextensionsNewForConfig : RestConfig -> result APIExtensionsInterface;
  pluginNewForConfig : RestConfig -> result PluginInterface;
  (** [NewNonInteractiveDeferredLoadingClientConfig(rules, overrides).ClientConfig()]
      for an explicit path and a server address *)
  loadClientConfig : string -> string -> result RestConfig;
  (** [NewDefaultClientConfig(cmdCfg, overrides).ClientConfig()] *)
  resolveClientConfig : CmdConfig -> result RestConfig;
  GetExtensionsAPIRestClient : APIExtensionsInterface -> result RESTInterface;
  Version : string
}.

Record clientManager : Type := {
  csrfKey : string;
  kubeConfigPath : string;
  apiserverHost : string;
  inClusterConfig : option RestConfig;
  tokenManager : option TokenManager;
  insecureAPIExtensionsClient : APIExtensionsInterface;
  insecurePluginClient : PluginInterface;
  insecureClient : KubernetesInterface;
  insecureConfig : option RestConfig
}.

Section Manager.

Variable env : Env.

Definition initConfig (cfg : RestConfig) : RestConfig :=
  {| Host := Host cfg; CAFile := CAFile cfg; CAData := CAData cfg;
     Insecure := Insecure cfg;
     QPS := DefaultQPS;
     Burst := DefaultBurst;
     ContentType := DefaultContentType;
     UserAgent := DefaultUserAgent +:+ "/" +:+ Version env |}.

Definition isRunningInCluster (self : clientManager) : bool :=
  bool_decide (is_Some (inClusterConfig self)).

Definition buildConfigFromFlags (self : clientManager)
    (apiserverHost kubeConfigPath : string) : result RestConfig :=
  if (0 <? len kubeConfigPath) || (0 <? len apiserverHost) then
    loadClientConfig env kubeConfigPath apiserverHost
  else
    (* [isRunningInCluster]: the in-cluster configuration is not nil *)
    match inClusterConfig self with
    | Some cfg => Ok cfg
    | None => Err (NewInvalid "could not create client config")
    end.

Definition buildCmdConfig (authInfo : option AuthInfo) (cfg : RestConfig) : CmdConfig :=
  let cmdCfg := NewConfig in
  {| Clusters :=
       <[DefaultCmdConfigName :=
           {| Server := Host cfg;
              CertificateAuthority := CAFile cfg;
              CertificateAuthorityData := CAData cfg;
              InsecureSkipTLSVerify := Insecure cfg |}]> (Clusters cmdCfg);
     AuthInfos := <[DefaultCmdConfigName := authInfo]> (AuthInfos cmdCfg);
     Contexts :=
       <[DefaultCmdConfigName :=
           {| ContextCluster := DefaultCmdConfigName;
              ContextAuthInfo := DefaultCmdConfigName |}]> (Contexts cmdCfg);
     CurrentContext := DefaultCmdConfigName |}.

Definition isLoginEnabled (req : option Request) : exec bool :=
  tls <- tlsOf req;;
  Done (bool_decide (is_Some tls) || GetEnableInsecureLogin env).

(** Go evaluates [&&] and [||] left to right and stops at the first operand
    that decides the value. *)
Definition isSecureModeEnabled (self : clientManager) (req : option Request) : exec bool :=
  loginEnabled <- isLoginEnabled req;;
  if loginEnabled && negb (GetEnableSkipLogin env) then Done true
  else
    loginEnabled' <- isLoginEnabled req;;
    if loginEnabled' && GetEnableSkipLogin env then containsAuthInfo req
    else Done false.

Definition ClientCmdConfig (self : clientManager) (req : option Request)
    : exec (result CmdConfig) :=
  extracted <- extractAuthInfo (tokenManager self) req;;
  let '(authInfo, err) := extracted in
  match err with
  | Some e => Done (Err e)
  | None =>
      match buildConfigFromFlags self (apiserverHost self) (kubeConfigPath self) with
      | Err e => Done (Err e)
      | Ok cfg => Done (Ok (buildCmdConfig authInfo cfg))
      end
  end.

Definition secureConfig (self : clientManager) (req : option Request)
    : exec (result RestConfig) :=
  cmdConfig <- ClientCmdConfig self req;;
  match cmdConfig with
  | Err e => Done (Err e)
  | Ok cmdConfig =>
      match resolveClientConfig env cmdConfig with
      | Err e => Done (Err e)
      | Ok cfg => Done (Ok (initConfig cfg))
      end
  end.

(** The three [secure...Client] methods: a secure configuration, then the
    constructor of the client family. *)
Definition secureWith {C : Type} (newForConfig : RestConfig -> result C)
    (self : clientManager) (req : option Request) : exec (result C) :=
  cfg <- secureConfig self req;;
  match cfg with
  | Err e => Done (Err e)
  | Ok cfg => Done (newForConfig cfg)
  end.

Definition secureClient := secureWith (kubernetesNewForConfig env).
Definition secureAPIExtensionsClient := secureWith (apiextensionsNewForConfig env).
Definition securePluginClient := secureWith (pluginNewForConfig env).

Definition InsecureClient (self : clientManager) := insecureClient self.
Definition InsecureAPIExtensionsClient (self : clientManager) :=
  insecureAPIExtensionsClient self.
Definition InsecurePluginClient (self : clientManager) := insecurePluginClient self.
Definition InsecureConfig (self : clientManager) := insecureConfig self.

Definition Client (self : clientManager) (req : option Request)
    : exec (result KubernetesInterface) :=
  match req with
  | None => Done (Err (NewBadRequest "request can not be nil"))
  | Some _ =>
      secure <- isSecureModeEnabled self req;;
      if secure then secureClient self req
      else Done (Ok (InsecureClient self))
  end.

Definition APIExtensionsClient (self : clientManager) (req : option Request)
    : exec (result APIExtensionsInterface) :=
  match req with
  | None => Done (Err (NewBadRequest "request can not be nil!"))
  | Some _ =>
      secure <- isSecureModeEnabled self req;;
      if secure then secureAPIExtensionsClient self req
      else Done (Ok (InsecureAPIExtensionsClient self))
  end.

Definition PluginClient (self : clientManager) (req : option Request)
    : exec (result PluginInterface) :=
  match req with
  | None => Done (Err (NewBadRequest "request can not be nil!"))
  | Some _ =>
      secure <- isSecureModeEnabled self req;;
      if secure then securePluginClient self req
      else Done (Ok (InsecurePluginClient self))
  end.

(** The method [Config] of the manager; a [*rest.Config] may be nil. *)
Definition Config (self : clientManager) (req : option Request)
    : exec (result (option RestConfig)) :=
  match req with
  | None => Done (Err (NewBadRequest "request can not be nil"))
  | Some _ =>
      secure <- isSecureModeEnabled self req;;
      if secure then
        cfg <- secureConfig self req;;
        match cfg with
        | Err e => Done (Err e)
        | Ok cfg => Done (Ok (Some cfg))
        end
      else Done (Ok (InsecureConfig self))
  end.

(** [CanI]: the verdict, and what the call printed with [log.Println]. *)
Definition CanI (self : clientManager) (req : option Request)
    (ssar : SelfSubjectAccessReview) : exec (bool * list error) :=
  extracted <- extractAuthInfo (tokenManager self) req;;
  let '(info, _) := extracted in
  if bool_decide (info = None :> option AuthInfo)
     && (0 <? len (GetCertFile env)) && (0 <? len (GetKeyFile env))
  then Done (false, [])
  else
    client <- Client self req;;
    match client with
    | Err err => Done (false, [err])
    | Ok client =>
        match CreateSelfSubjectAccessReview client ssar with
        | Err err => Done (false, [err])
        | Ok response => Done (Allowed response, [])
        end
    end.

Definition HasAccess (self : clientManager) (authInfo : AuthInfo)
    : string * option error :=
  match buildConfigFromFlags self (apiserverHost self) (kubeConfigPath self) with
  | Err err => (EmptyString, Some err)
  | Ok cfg =>
      let clientConfig := buildCmdConfig (Some authInfo) cfg in
      match resolveClientConfig env clientConfig with
      | Err err => (EmptyString, Some err)
      | Ok cfg =>
          match kubernetesNewForConfig env cfg with
          | Err err => (EmptyString, Some err)
          | Ok client =>
              match ServerVersion client with
              | Err err =>
                  if IsForbidden err
                  then (getUsernameFromErrorText (errorText err), Some err)
                  else (EmptyString, Some err)
              | Ok _ =>
                  match CreateTokenReview client
                          {| ReviewToken := Token authInfo;
                             Username := EmptyString |} with
                  | Err err =>
                      if IsForbidden err
                      then (getUsernameFromErrorText (errorText err), None)
                      else (EmptyString, Some err)
                  | Ok result_ => (getUsername (Username result_), None)
                  end
              end
          end
      end
  end.

Definition VerberClient (self : clientManager) (req : option Request)
    (config : option RestConfig) : exec (result ResourceVerber) :=
  k8sClient <- Client self req;;
  match k8sClient with
  | Err err => Done (Err err)
  | Ok k8sClient =>
      apiextensionsclient <- APIExtensionsClient self req;;
      match apiextensionsclient with
      | Err err => Done (Err err)
      | Ok apiextensionsclient =>
          pluginsclient <- PluginClient self req;;
          match pluginsclient with
          | Err err => Done (Err err)
          | Ok pluginsclient =>
              match GetExtensionsAPIRestClient env apiextensionsclient with
              | Err err => Done (Err err)
              | Ok apiextensionsRestClient =>
                  Done (Ok (NewResourceVerber k8sClient apiextensionsRestClient
                              (DashboardV1alpha1 pluginsclient) config))
              end
          end
      end
  end.

End Manager.

(** ** Notions used to state the properties *)

(** The pair extraction returns when it finds no credential. *)
Definition unauthorized : option AuthInfo * option error :=
  (None, Some (NewUnauthorized MsgLoginUnauthorizedError)).

(** The descriptor of a bearer token without impersonation. *)
Definition bearerOnly (token : string) : AuthInfo :=
  {| Token := token; Impersonate := EmptyString;
     ImpersonateGroups := []; ImpersonateUserExtra := ∅ |}.

(** Changing what the jweToken header holds. *)
Definition sameButJWEToken (h h' : Header) : Prop :=
  forall name, name <> Textproto.CanonicalMIMEHeaderKey JWETokenHeader ->
               h' !! name = h !! name.

(** The fail-closed case of [CanI]: no descriptor, and both a certificate
    file and a key file are configured. *)
Definition failsClosed (env : Env) (self : clientManager) (r : Request) : Prop :=
  (exists err, extractAuthInfo (tokenManager self) (Some r) = Done (None, err)) /\
  GetCertFile env <> EmptyString /\
  GetKeyFile env <> EmptyString.


(** [client] is the client [HasAccess] builds for a descriptor: from the
    base configuration, through the clientcmd configuration assembled for
    the descriptor, to the constructor of the core client. *)
Definition probeClient (env : Env) (self : clientManager) (authInfo : AuthInfo)
    (client : KubernetesInterface) : Prop :=
  exists cfg cfg',
    buildConfigFromFlags env self (apiserverHost self) (kubeConfigPath self)
      = Ok cfg /\
    resolveClientConfig env (buildCmdConfig (Some authInfo) cfg) = Ok cfg' /\
    kubernetesNewForConfig env cfg' = Ok client.

(** An outcome that is a bad-request failure. *)
Definition failsWithBadRequest {A : Type} (outcome : exec (result A)) : Prop :=
  exists msg, outcome = Done (Err (StatusError StatusReasonBadRequest msg)).

(** The non-empty run of bytes of the class at the start of [s], and what
    follows it. *)
Definition leadingSegment (p : ascii -> bool) (s : string)
    : option (string * string) :=
  match s with
  | EmptyString => None
  | String c _ => if p c then Some (takeWhile p s, dropWhile p s) else None
  end.

(** What follows a colon. *)
Definition afterColon (s : string) : option string :=
  match s with
  | EmptyString => None
  | String c s' => if Ascii.eqb c ":" then Some s' else None
  end.

(** The pattern read at the start of [s]: the four segments and the text
    after the last one. *)
Definition parseUsername (s : string)
    : option (string * string * string * string * string) :=
  match leadingSegment isWordOrHyphen s with
  | None => None
  | Some (a, s1) =>
  match afterColon s1 with
  | None => None
  | Some s2 =>
  match leadingSegment isWordOrHyphen s2 with
  | None => None
  | Some (b, s3) =>
  match afterColon s3 with
  | None => None
  | Some s4 =>
  match leadingSegment isWordHyphenUnderscore s4 with
  | None => None
  | Some (c, s5) =>
  match afterColon s5 with
  | None => None
  | Some s6 =>
  match leadingSegment isWordOrHyphen s6 with
  | None => None
  | Some (d, post) => Some (a, b, c, d, post)
  end end end end end end end.

(** A segment of the structured username: a non-empty run of letters,
    digits, underscores and hyphens. *)
Definition segment (s : string) : Prop :=
  s <> EmptyString /\ allBytes isWordOrHyphen s = true.

(** [name] holds the four-segment shape after [pre] and before [post]. *)
Definition occurrence (name pre a b c d post : string) : Prop :=
  name = pre +:+ a +:+ ":" +:+ b +:+ ":" +:+ c +:+ ":" +:+ d +:+ post /\
  segment a /\ segment b /\ segment c /\ segment d.

Definition containsShape (name : string) : Prop :=
  exists pre a b c d post, occurrence name pre a b c d post.

(** ** Sample collaborators and requests *)

Module Sample.

Definition config : RestConfig :=
  {| Host := "https://cluster.local"; CAFile := EmptyString; CAData := EmptyString;
     Insecure := false; QPS := 0; Burst := 0;
     ContentType := EmptyString; UserAgent := EmptyString |}.

Definition forbidden : error :=
  StatusError StatusReasonForbidden
    ("forbidden: User " +:+ doubleQuote +:+ "system:anonymous" +:+ doubleQuote
       +:+ " cannot get path /version").

Definition refused : error := PlainError "connection refused".

(** A client whose access reviews allow exactly the spec [get pods]. *)
Definition kube : KubernetesInterface :=
  {| CreateSelfSubjectAccessReview := fun ssar =>
       Ok {| ReviewSpec := ReviewSpec ssar;
             Allowed := bool_decide (ReviewSpec ssar = "get pods") |};
     ServerVersion := Ok "v1.21";
     CreateTokenReview := fun tr =>
       Ok {| ReviewToken := ReviewToken tr;
             Username := "system:serviceaccount:kube-system:dashboard" |};
     RESTClient := fun _ => {| APIPath := "/api" |} |}.

(** Clients the cluster turns away. *)
Definition kubeDenied : KubernetesInterface :=
  {| CreateSelfSubjectAccessReview := fun _ => Err refused;
     ServerVersion := Err forbidden;
     CreateTokenReview := fun _ => Err refused;
     RESTClient := fun _ => {| APIPath := "/api" |} |}.

Definition kubeReviewDenied : KubernetesInterface :=
  {| CreateSelfSubjectAccessReview := fun _ => Err refused;
     ServerVersion := Ok "v1.21";
     CreateTokenReview := fun _ => Err forbidden;
     RESTClient := fun _ => {| APIPath := "/api" |} |}.

Definition apiextensions : APIExtensionsInterface :=
  {| ExtensionsDiscovery := "apiextensions.k8s.io" |}.

Definition plugin : PluginInterface :=
  {| DashboardV1alpha1 := {| APIPath := "/apis/dashboard.k8s.io/v1alpha1" |} |}.

(** Login over plain HTTP is allowed and may be skipped; TLS material is
    configured. The cluster is reached through an explicit host. *)
Definition env (client : KubernetesInterface) : Env :=
  {| GetCertFile := "tls.crt";
     GetKeyFile := "tls.key";
     GetEnableInsecureLogin := true;
     GetEnableSkipLogin := true;
     kubernetesNewForConfig := fun _ => Ok client;
     apiextensionsNewForConfig := fun _ => Ok apiextensions;
     pluginNewForConfig := fun _ => Ok plugin;
     loadClientConfig := fun _ host =>
       Ok {| Host := host; CAFile := EmptyString; CAData := EmptyString;
             Insecure := false; QPS := 0; Burst := 0;
             ContentType := EmptyString; UserAgent := EmptyString |};
     resolveClientConfig := fun cmdCfg =>
       match Clusters cmdCfg !! CurrentContext cmdCfg with
       | Some cluster =>
           Ok {| Host := Server cluster; CAFile := CertificateAuthority cluster;
                 CAData := CertificateAuthorityData cluster;
                 Insecure := InsecureSkipTLSVerify cluster; QPS := 0; Burst := 0;
                 ContentType := EmptyString; UserAgent := EmptyString |}
       | None => Err (PlainError "no context")
       end;
     GetExtensionsAPIRestClient := fun _ => Ok {| APIPath := "/apis" |};
     Version := "UNKNOWN" |}.

(** Login disabled unless the request came over TLS, and no skipping. *)
Definition strictEnv : Env :=
  {| GetCertFile := EmptyString;
     GetKeyFile := EmptyString;
     GetEnableInsecureLogin := false;
     GetEnableSkipLogin := false;
     kubernetesNewForConfig := kubernetesNewForConfig (env kube);
     apiextensionsNewForConfig := apiextensionsNewForConfig (env kube);
     pluginNewForConfig := pluginNewForConfig (env kube);
     loadClientConfig := loadClientConfig (env kube);
     resolveClientConfig := resolveClientConfig (env kube);
     GetExtensionsAPIRestClient := GetExtensionsAPIRestClient (env kube);
     Version := "UNKNOWN" |}.

Definition decrypted : AuthInfo := bearerOnly "decrypted".

Definition tokens : TokenManager :=
  {| Decrypt := fun jwe =>
       if bool_decide (jwe = "opaque") then (Some decrypted, None)
       else (None, Some (PlainError "token can not be decrypted")) |}.

Definition manager (tm : option TokenManager) : clientManager :=
  {| csrfKey := "key";
     kubeConfigPath := EmptyString;
     apiserverHost := "https://cluster.local";
     inClusterConfig := None;
     tokenManager := tm;
     insecureAPIExtensionsClient := apiextensions;
     insecurePluginClient := plugin;
     insecureClient := kube;
     insecureConfig := Some (initConfig (env kube) config) |}.

Definition request (h : Header) : Request :=
  {| RequestHeader := h; TLS := None |}.

Definition anonymous : Request := request ∅.

Definition bearer : Request :=
  request {[ "Authorization" := ["Bearer abc"] ]}.

Definition impersonating : Request :=
  request {[ "Authorization" := ["Bearer abc"];
             "Impersonate-User" := ["alice"];
             "Impersonate-Group" := ["dev"; "ops"];
             "Impersonate-Extra-reason" := ["audit"; "followup"] ]}.

(** The Authorization header is exactly the prefix. *)
Definition barePrefix : Request :=
  request {[ "Authorization" := ["Bearer "]; "Jwetoken" := ["opaque"] ]}.

Definition opaque : Request := request {[ "Jwetoken" := ["opaque"] ]}.

Definition basic : Request :=
  request {[ "Authorization" := ["Basic dXNlcjpwYXNz"] ]}.

Definition review : SelfSubjectAccessReview :=
  {| ReviewSpec := "get pods"; Allowed := false |}.

End Sample.

(** ** Start-up

    [NewClientManager] and the [init...] methods. A failed start-up ends in
    [panic(err)]; the manager under construction is then never seen. *)

Inductive startup (A : Type) : Type :=
  | Started (a : A)
  | Fatal (e : error).
Arguments Started {A} a.
Arguments Fatal {A} e.

(** The collaborators of start-up: [rest.InClusterConfig()], the key that
    [clientapi.GenerateCSRFKey()] draws, and the token that
    [csrf.NewCsrfTokenManager(client).Token()] reads through a client. *)
Record Startup : Type := {
  InClusterConfig : result RestConfig;
  GenerateCSRFKey : string;
  CsrfToken : KubernetesInterface -> string
}.

(** [initInClusterConfig]: the new value of the field [inClusterConfig]
    (nil before), and the lines it logs. *)
Definition initInClusterConfig (boot : Startup)
    (apiserverHost kubeConfigPath : string) : option RestConfig * list string :=
  if (0 <? len apiserverHost) || (0 <? len kubeConfigPath) then
    (None, ["Skipping in-cluster config"])
  else
    match InClusterConfig boot with
    | Err err =>
        (None, ["Using in-cluster config to connect to apiserver";
                "Could not init in cluster config: " +:+ errorText err])
    | Ok cfg => (Some cfg, ["Using in-cluster config to connect to apiserver"])
    end.

(** [buildConfigFromFlags] as start-up calls it, when the manager has no
    clients yet: of the manager it reads the field [inClusterConfig] only. *)
Definition buildConfigFromFlagsAt (env : Env) (inCluster : option RestConfig)
    (apiserverHost kubeConfigPath : string) : result RestConfig :=
  if (0 <? len kubeConfigPath) || (0 <? len apiserverHost) then
    loadClientConfig env kubeConfigPath apiserverHost
  else
    match inCluster with
    | Some cfg => Ok cfg
    | None => Err (NewInvalid "could not create client config")
    end.

(** [initInsecureConfig]: the insecure configuration and the in-cluster
    configuration after the call. Without explicit parameters
    [buildConfigFromFlags] hands out the pointer [self.inClusterConfig], so
    [initConfig] writes the defaults into the object both fields point to. *)
Definition initInsecureConfig (env : Env) (inCluster : option RestConfig)
    (apiserverHost kubeConfigPath : string)
    : startup (RestConfig * option RestConfig) :=
  match buildConfigFromFlagsAt env inCluster apiserverHost kubeConfigPath with
  | Err err => Fatal err
  | Ok cfg =>
      let cfg' := initConfig env cfg in
      Started (cfg',
               if (0 <? len kubeConfigPath) || (0 <? len apiserverHost)
               then inCluster else Some cfg')
  end.

(** What [initInsecureClients] leaves in the manager. *)
Record insecureClients : Type := {
  builtConfig : RestConfig;
  builtInCluster : option RestConfig;
  builtClient : KubernetesInterface;
  builtAPIExtensionsClient : APIExtensionsInterface;
  builtPluginClient : PluginInterface
}.

Definition initInsecureClients (env : Env) (inCluster : option RestConfig)
    (apiserverHost kubeConfigPath : string) : startup insecureClients :=
  match initInsecureConfig env inCluster apiserverHost kubeConfigPath with
  | Fatal err => Fatal err
  | Started (cfg, inCluster') =>
      match kubernetesNewForConfig env cfg with
      | Err err => Fatal err
      | Ok k8sClient =>
          match apiextensionsNewForConfig env cfg with
          | Err err => Fatal err
          | Ok apiextensionsclient =>
              match pluginNewForConfig env cfg with
              | Err err => Fatal err
              | Ok pluginclient =>
                  Started {| builtConfig := cfg;
                             builtInCluster := inCluster';
                             builtClient := k8sClient;
                             builtAPIExtensionsClient := apiextensionsclient;
                             builtPluginClient := pluginclient |}
              end
          end
      end
  end.

(** [initCSRFKey]: the key, and the line it logs. *)
Definition initCSRFKey (boot : Startup) (inCluster : option RestConfig)
    (insecureClient : KubernetesInterface) : string * list string :=
  match inCluster with
  | None => (GenerateCSRFKey boot, ["Using random key for csrf signing"])
  | Some _ => (CsrfToken boot insecureClient, ["Using secret token for csrf signing"])
  end.

(** [NewClientManager], with [init] unfolded into its three steps: the
    manager or the panic, and the log. *)
Definition NewClientManager (env : Env) (boot : Startup)
    (kubeConfigPath apiserverHost : string)
    : startup clientManager * list string :=
  let '(inCluster, logged) :=
    initInClusterConfig boot apiserverHost kubeConfigPath in
  match initInsecureClients env inCluster apiserverHost kubeConfigPath with
  | Fatal err => (Fatal err, logged)
  | Started built =>
      let '(key, logged') :=
        initCSRFKey boot (builtInCluster built) (builtClient built) in
      (Started {| csrfKey := key;
                  kubeConfigPath := kubeConfigPath;
                  apiserverHost := apiserverHost;
                  inClusterConfig := builtInCluster built;
                  tokenManager := None;
                  insecureAPIExtensionsClient := builtAPIExtensionsClient built;
                  insecurePluginClient := builtPluginClient built;
                  insecureClient := builtClient built;
                  insecureConfig := Some (builtConfig built) |},
       logged ++ logged')
  end.

Definition CSRFKey (self : clientManager) : string := csrfKey self.

(** [SetTokenManager]; the argument is an interface value and may be nil. *)
Definition SetTokenManager (self : clientManager)
    (manager : option TokenManager) : clientManager :=
  {| csrfKey := csrfKey self;
     kubeConfigPath := kubeConfigPath self;
     apiserverHost := apiserverHost self;
     inClusterConfig := inClusterConfig self;
     tokenManager := manager;
     insecureAPIExtensionsClient := insecureAPIExtensionsClient self;
     insecurePluginClient := insecurePluginClient self;
     insecureClient := insecureClient self;
     insecureConfig := insecureConfig self |}.

(** ** Counting bytes *)

Fixpoint countByte (b : ascii) (s : string) : nat :=
  match s with
  | EmptyString => 0
  | String c s' => (if Ascii.eqb c b then 1 else 0) + countByte b s'
  end.

Definition quote : ascii := ascii_of_nat 34.
Definition notQuote (c : ascii) : bool := negb (Ascii.eqb c quote).

(** The two literals of the pattern of [getUsernameFromError]. *)
Definition userLit : string := " User " +:+ doubleQuote.
Definition cannotLit : string := doubleQuote +:+ " cannot ".

(** An error text of the shape the pattern looks for. *)
Definition forbiddenShape (text pre user post : string) : Prop :=
  text = pre +:+ userLit +:+ user +:+ cannotLit +:+ post /\
  allBytes isDot pre = true /\ allBytes isDot user = true /\
  allBytes isDot post = true.

Module SampleStartup.

(** Start-up inside a cluster. *)
Definition inCluster : Startup :=
  {| InClusterConfig := Ok Sample.config;
     GenerateCSRFKey := "random";
     CsrfToken := fun _ => "secret" |}.

(** Start-up outside a cluster. *)
Definition standalone : Startup :=
  {| InClusterConfig := Err (PlainError "not in a cluster");
     GenerateCSRFKey := "random";
     CsrfToken := fun _ => "secret" |}.

End SampleStartup.

(** ** Proof steps for case analyses on outcomes *)

Ltac break_results :=
  repeat match goal with
         | H : _ /\ _ |- _ => destruct H
         | H : _ \/ _ |- _ => destruct H
         | H : exists _, _ |- _ => destruct H
         | H : Ok _ = Ok _ |- _ => injection H as H; subst
         | H : Err _ = Err _ |- _ => injection H as H; subst
         | H : Ok _ = Err _ |- _ => discriminate H
         | H : Err _ = Ok _ |- _ => discriminate H
         end.

Ltac fatal_cases :=
  cbv zeta; split;
  [ intros Hnew;
    injection Hnew as Herr Hlog; subst; split; [reflexivity|]; eauto 12
  | intros [Hlog Hcase]; subst; break_results; congruence ].

Ltac break_outcomes :=
  repeat match goal with
         | H : _ /\ _ |- _ => destruct H
         | H : _ \/ _ |- _ => destruct H
         | H : exists _, _ |- _ => destruct H
         end;
  simplify_eq; try done; try congruence.

Ltac verber_cases :=
  split; intros ?;
  (split; [ intros Hv; simplify_eq; eauto 15 | intros Hv; break_outcomes ]).

(** * Properties *)

(** ** The two patterns on sample texts *)

Example getUsername_sa :
  getUsername "system:serviceaccount:kube-system:dashboard" = "dashboard".
Proof. vm_compute. reflexivity. Qed.

Example getUsername_plain : getUsername "plain-name" = "plain-name".
Proof. vm_compute. reflexivity. Qed.

Example getUsername_dot :
  getUsername "system:serviceaccount:kube-system:my.app" = "my".
Proof. vm_compute. reflexivity. Qed.

Example getUsername_five : getUsername "a:b:c:d:e" = "d".
Proof. vm_compute. reflexivity. Qed.

Example getUsernameFromError_forbidden :
  getUsernameFromErrorText
    ("forbidden: User " +:+ doubleQuote +:+ "system:anonymous" +:+ doubleQuote
       +:+ " cannot get path /version")
  = "system:anonymous".
Proof. vm_compute. reflexivity. Qed.

Example getUsernameFromError_other :
  getUsernameFromErrorText "connection refused" = "connection refused".
Proof. vm_compute. reflexivity. Qed.

(** ** Strings *)

Lemma len_pos_false (s : string) : (0 <? len s) = false <-> s = EmptyString.
Proof. destruct s; simpl; split; intros H; try done. Qed.

Lemma len_pos_true (s : string) : (0 <? len s) = true <-> s <> EmptyString.
Proof. destruct s; simpl; split; intros H; try done. Qed.

Lemma append_String (c : ascii) (p k : string) :
  String c p +:+ k = String c (p +:+ k).
Proof. reflexivity. Qed.

Lemma HasPrefix_app (p k : string) : HasPrefix (p +:+ k) p = true.
Proof. induction p as [|c p IH]; simpl; [done|]. by rewrite Ascii.eqb_refl. Qed.

Lemma sliceFrom_app (p k : string) : sliceFrom (len p) (p +:+ k) = k.
Proof. induction p as [|c p IH]; simpl; [by destruct k|done]. Qed.

Lemma HasPrefix_split (s p : string) :
  HasPrefix s p = true -> s = p +:+ sliceFrom (len p) s.
Proof.
  revert s. induction p as [|c p IH]; intros s H; simpl in *.
  - done.
  - destruct s as [|d s]; [done|].
    destruct (Ascii.eqb_spec d c) as [->|]; [|done].
    rewrite append_String. f_equal. by apply IH.
Qed.

Lemma HasPrefix_false_app (s p k : string) : HasPrefix s p = false -> s <> p +:+ k.
Proof. intros H ->. by rewrite HasPrefix_app in H. Qed.

Lemma append_inj_l (p a b : string) : p +:+ a = p +:+ b -> a = b.
Proof.
  induction p as [|c p IH]; [done|].
  rewrite !append_String. intros [=]. auto.
Qed.

Lemma extractTokenFromHeader_bearer (token : string) :
  extractTokenFromHeader ("Bearer " +:+ token) = token.
Proof.
  unfold extractTokenFromHeader, TrimPrefix.
  rewrite !HasPrefix_app. apply (sliceFrom_app "Bearer ").
Qed.

Lemma extractTokenFromHeader_other (authHeader : string) :
  HasPrefix authHeader "Bearer " = false ->
  extractTokenFromHeader authHeader = EmptyString.
Proof. unfold extractTokenFromHeader. by intros ->. Qed.

Lemma extractTokenFromHeader_prefixed (authHeader : string) :
  HasPrefix authHeader "Bearer " = true ->
  authHeader = "Bearer " +:+ extractTokenFromHeader authHeader.
Proof.
  intros H. unfold extractTokenFromHeader, TrimPrefix. rewrite H.
  by apply HasPrefix_split.
Qed.

(** ** The extra fields *)

Lemma collectExtra_lookup (h : Header) (extraName : string) :
  collectExtra h !! extraName = h !! (ImpersonateUserExtraHeader +:+ extraName).
Proof.
  unfold collectExtra. revert extraName.
  apply (map_fold_weak_ind
    (fun (extra : gmap string (list string)) (m : Header) =>
       forall k, extra !! k = m !! (ImpersonateUserExtraHeader +:+ k))).
  - intros k. by rewrite !lookup_empty.
  - intros name values m extra Hfresh IH k.
    destruct (HasPrefix name ImpersonateUserExtraHeader) eqn:Hp.
    + apply HasPrefix_split in Hp.
      destruct (decide (sliceFrom (len ImpersonateUserExtraHeader) name = k))
        as [Hk|Hk].
      * rewrite Hk, lookup_insert_eq.
        rewrite Hp, Hk. by rewrite lookup_insert_eq.
      * rewrite lookup_insert_ne by done.
        rewrite lookup_insert_ne; [apply IH|].
        intros Heq. apply Hk. rewrite Hp in Heq.
        by apply append_inj_l in Heq.
    + rewrite lookup_insert_ne; [apply IH|].
      intros ->. by rewrite HasPrefix_app in Hp.
Qed.

(** Headers that do not start with the prefix leave the extra fields alone. *)
Lemma collectExtra_ext (h h' : Header) :
  (forall name, HasPrefix name ImpersonateUserExtraHeader = true ->
                h' !! name = h !! name) ->
  collectExtra h' = collectExtra h.
Proof.
  intros H. apply map_eq. intros k. rewrite !collectExtra_lookup.
  apply H, HasPrefix_app.
Qed.

Example collectExtra_reason :
  collectExtra
    {[ "Authorization" := ["Bearer abc"];
       "Impersonate-Extra-reason" := ["audit"; "followup"] ]}
  !! "reason" = Some ["audit"; "followup"].
Proof. vm_compute. reflexivity. Qed.

(** ** Extraction on a request that is not nil *)

Lemma extractAuthInfo_no_bearer (tm : option TokenManager) (r : Request) :
  extractTokenFromHeader (Header_Get (RequestHeader r) "Authorization")
    = EmptyString ->
  extractAuthInfo tm (Some r) =
    Done match tm with
         | Some d =>
             if 0 <? len (Header_Get (RequestHeader r) JWETokenHeader)
             then Decrypt d (Header_Get (RequestHeader r) JWETokenHeader)
             else unauthorized
         | None => unauthorized
         end.
Proof.
  intros H. unfold extractAuthInfo. simpl. rewrite H. simpl.
  destruct tm as [d|]; [|done].
  by destruct (0 <? len (Header_Get (RequestHeader r) JWETokenHeader)).
Qed.

Lemma extractAuthInfo_no_credential (tm : option TokenManager) (r : Request) :
  HasPrefix (Header_Get (RequestHeader r) "Authorization") "Bearer " = false ->
  Header_Get (RequestHeader r) JWETokenHeader = EmptyString \/ tm = None ->
  extractAuthInfo tm (Some r) = Done unauthorized.
Proof.
  intros Hauth%extractTokenFromHeader_other Hnone.
  rewrite (extractAuthInfo_no_bearer tm r Hauth).
  destruct Hnone as [Hjwe| ->]; [|done]. rewrite Hjwe. by destruct tm.
Qed.

Lemma extractAuthInfo_bearer (tm : option TokenManager) (r : Request)
    (token : string) :
  Header_Get (RequestHeader r) "Authorization" = "Bearer " +:+ token ->
  token <> EmptyString ->
  extractAuthInfo tm (Some r) =
    Done (Some
      (if 0 <? len (Header_Get (RequestHeader r) "Impersonate-User") then
         {| Token := token;
            Impersonate := Header_Get (RequestHeader r) "Impersonate-User";
            ImpersonateGroups :=
              default [] (RequestHeader r !! "Impersonate-Group");
            ImpersonateUserExtra := collectExtra (RequestHeader r) |}
       else bearerOnly token), None).
Proof.
  intros Hauth Htoken. unfold extractAuthInfo. simpl.
  rewrite Hauth, extractTokenFromHeader_bearer.
  apply len_pos_true in Htoken. rewrite Htoken.
  destruct (0 <? len (Header_Get (RequestHeader r) "Impersonate-User")); [|done].
  simpl. do 3 f_equal.
  by destruct (default [] (RequestHeader r !! "Impersonate-Group")).
Qed.

Lemma containsAuthInfo_Some (r : Request) :
  containsAuthInfo (Some r) =
    Done ((0 <? len (Header_Get (RequestHeader r) "Authorization"))
          || (0 <? len (Header_Get (RequestHeader r) JWETokenHeader))).
Proof. reflexivity. Qed.

Lemma isLoginEnabled_Some (env : Env) (r : Request) :
  isLoginEnabled env (Some r) =
    Done (bool_decide (is_Some (TLS r)) || GetEnableInsecureLogin env).
Proof. reflexivity. Qed.

Lemma isSecureModeEnabled_Some (env : Env) (self : clientManager) (r : Request) :
  isSecureModeEnabled env self (Some r) =
    Done (let login := bool_decide (is_Some (TLS r)) || GetEnableInsecureLogin env in
          (login && negb (GetEnableSkipLogin env))
          || (login && GetEnableSkipLogin env
              && ((0 <? len (Header_Get (RequestHeader r) "Authorization"))
                  || (0 <? len (Header_Get (RequestHeader r) JWETokenHeader))))).
Proof.
  unfold isSecureModeEnabled. rewrite isLoginEnabled_Some. simpl.
  destruct (bool_decide (is_Some (TLS r)) || GetEnableInsecureLogin env),
    (GetEnableSkipLogin env); simpl; try done.
Qed.

(** ** C1: the mode decision *)

(** C1. For a request, the Mode Decider selects secure mode if and only if
    login is enabled and skip-login is not allowed, or login is enabled,
    skip-login is allowed and the existence check finds a credential header.
    Login is enabled when the request came over TLS or insecure login is
    allowed; when neither holds the decision is insecure, whatever the
    skip-login flag and the headers are. *)
Theorem isSecureModeEnabled_rule (env : Env) (self : clientManager) (r : Request) :
  exists login credential secure : bool,
    isLoginEnabled env (Some r) = Done login /\
    containsAuthInfo (Some r) = Done credential /\
    isSecureModeEnabled env self (Some r) = Done secure /\
    (login = true <-> is_Some (TLS r) \/ GetEnableInsecureLogin env = true) /\
    (secure = true <->
       (login = true /\ GetEnableSkipLogin env = false) \/
       (login = true /\ GetEnableSkipLogin env = true /\ credential = true)) /\
    (TLS r = None -> GetEnableInsecureLogin env = false -> secure = false).
Proof.
  eexists _, _, _.
  split; [apply isLoginEnabled_Some|].
  split; [apply containsAuthInfo_Some|].
  split; [apply isSecureModeEnabled_Some|].
  split; [|split].
  - rewrite orb_true_iff, bool_decide_eq_true. tauto.
  - simpl.
    destruct (bool_decide (is_Some (TLS r)) || GetEnableInsecureLogin env),
      (GetEnableSkipLogin env),
      ((0 <? len (Header_Get (RequestHeader r) "Authorization"))
       || (0 <? len (Header_Get (RequestHeader r) JWETokenHeader)));
      simpl; intuition congruence.
  - intros Htls Hflag. simpl. rewrite Htls, Hflag.
    rewrite bool_decide_eq_false_2; [done|]. by intros [? ?].
Qed.

(** ** C5: no credential, or the collaborator *)

(** C5. For a request whose Authorization header has no Bearer prefix:
    when the jweToken header is absent or no decryption collaborator is
    configured, extraction fails with the Unauthorized error that carries
    the login-required message; when the header is present and a
    collaborator is configured, the pair the collaborator returns is what
    extraction returns. *)
Theorem extractAuthInfo_fallback (tm : option TokenManager) (r : Request) :
  HasPrefix (Header_Get (RequestHeader r) "Authorization") "Bearer " = false ->
  (Header_Get (RequestHeader r) JWETokenHeader = EmptyString \/ tm = None ->
   extractAuthInfo tm (Some r) =
     Done (None, Some (StatusError StatusReasonUnauthorized MsgLoginUnauthorizedError)))
  /\
  (forall d, tm = Some d ->
     Header_Get (RequestHeader r) JWETokenHeader <> EmptyString ->
     extractAuthInfo tm (Some r) =
       Done (Decrypt d (Header_Get (RequestHeader r) JWETokenHeader))).
Proof.
  intros Hauth. split.
  - by apply extractAuthInfo_no_credential.
  - intros d -> Hjwe. apply extractTokenFromHeader_other in Hauth.
    rewrite (extractAuthInfo_no_bearer (Some d) r Hauth).
    apply len_pos_true in Hjwe. by rewrite Hjwe.
Qed.

(** ** C9: no descriptor with an empty token *)

(** C9. A descriptor that extraction returns either has a non-empty token,
    which is the remainder of the Authorization header after the Bearer
    prefix, or is the output of the decryption collaborator on the jweToken
    header. An Authorization header that is exactly the prefix is treated
    as no bearer credential: extraction goes on to the opaque-token path,
    or fails Unauthorized. *)
Theorem extractAuthInfo_token_nonempty (tm : option TokenManager) (r : Request) :
  (forall info err,
     extractAuthInfo tm (Some r) = Done (Some info, err) ->
     (Token info <> EmptyString /\ err = None /\
      Header_Get (RequestHeader r) "Authorization" = "Bearer " +:+ Token info)
     \/
     (exists d, tm = Some d /\
        Header_Get (RequestHeader r) JWETokenHeader <> EmptyString /\
        Decrypt d (Header_Get (RequestHeader r) JWETokenHeader) = (Some info, err)))
  /\
  (Header_Get (RequestHeader r) "Authorization" = "Bearer " ->
   extractAuthInfo tm (Some r) =
     Done match tm with
          | Some d =>
              if 0 <? len (Header_Get (RequestHeader r) JWETokenHeader)
              then Decrypt d (Header_Get (RequestHeader r) JWETokenHeader)
              else unauthorized
          | None => unauthorized
          end).
Proof.
  split.
  - intros info err Hx.
    destruct (extractTokenFromHeader (Header_Get (RequestHeader r) "Authorization"))
      as [|c token] eqn:Htok.
    + right. rewrite (extractAuthInfo_no_bearer tm r Htok) in Hx.
      destruct tm as [d|]; [|discriminate Hx].
      destruct (0 <? len (Header_Get (RequestHeader r) JWETokenHeader)) eqn:Hjwe;
        [|discriminate Hx].
      exists d. apply len_pos_true in Hjwe. by inversion Hx.
    + left.
      assert (Hauth : Header_Get (RequestHeader r) "Authorization"
                      = "Bearer " +:+ String c token).
      { rewrite <- Htok. apply extractTokenFromHeader_prefixed.
        destruct (HasPrefix (Header_Get (RequestHeader r) "Authorization") "Bearer ")
          eqn:Hp; [done|].
        by rewrite (extractTokenFromHeader_other _ Hp) in Htok. }
      rewrite (extractAuthInfo_bearer tm r (String c token) Hauth) in Hx by done.
      inversion Hx as [[Hinfo Herr]].
      destruct (0 <? len (Header_Get (RequestHeader r) "Impersonate-User"));
        simpl; done.
  - intros Hauth. apply extractAuthInfo_no_bearer. by rewrite Hauth.
Qed.

Example extract_impersonating :
  extractAuthInfo None (Some Sample.impersonating) =
    Done (Some {| Token := "abc"; Impersonate := "alice";
                  ImpersonateGroups := ["dev"; "ops"];
                  ImpersonateUserExtra := {[ "reason" := ["audit"; "followup"] ]} |},
          None).
Proof. vm_compute. reflexivity. Qed.

Example extract_opaque :
  extractAuthInfo (Some Sample.tokens) (Some Sample.opaque) =
    Done (Some Sample.decrypted, None).
Proof. vm_compute. reflexivity. Qed.

Example extract_anonymous :
  extractAuthInfo (Some Sample.tokens) (Some Sample.anonymous) = Done unauthorized.
Proof. vm_compute. reflexivity. Qed.

Example jweToken_canonical :
  Textproto.CanonicalMIMEHeaderKey JWETokenHeader = "Jwetoken".
Proof. vm_compute. reflexivity. Qed.

Lemma isSecureModeEnabled_rule_witness :
  isSecureModeEnabled Sample.strictEnv (Sample.manager None) (Some Sample.bearer)
  = Done false.
Proof.
  destruct (isSecureModeEnabled_rule Sample.strictEnv (Sample.manager None)
              Sample.bearer)
    as (login & credential & secure & _ & _ & Hsecure & _ & _ & Hoff).
  rewrite Hsecure. f_equal. apply Hoff; reflexivity.
Defined.

Lemma extractAuthInfo_fallback_witness :
  extractAuthInfo (Some Sample.tokens) (Some Sample.basic) = Done unauthorized /\
  extractAuthInfo (Some Sample.tokens) (Some Sample.opaque)
  = Done (Some Sample.decrypted, None).
Proof.
  split.
  - apply (extractAuthInfo_fallback (Some Sample.tokens) Sample.basic).
    + vm_compute. reflexivity.
    + left. vm_compute. reflexivity.
  - refine (eq_trans
      (proj2 (extractAuthInfo_fallback (Some Sample.tokens) Sample.opaque _)
         Sample.tokens eq_refl _) _).
    + vm_compute. reflexivity.
    + vm_compute. discriminate.
    + vm_compute. reflexivity.
Defined.

Lemma extractAuthInfo_token_nonempty_witness :
  Token (bearerOnly "abc") <> EmptyString /\
  extractAuthInfo (Some Sample.tokens) (Some Sample.barePrefix)
  = Done (Some Sample.decrypted, None).
Proof.
  destruct (extractAuthInfo_token_nonempty (Some Sample.tokens) Sample.bearer)
    as [Hdesc _].
  destruct (extractAuthInfo_token_nonempty (Some Sample.tokens) Sample.barePrefix)
    as [_ Hbare].
  split.
  - destruct (Hdesc (bearerOnly "abc") None) as [[Hne _]|(d & _ & Hjwe & _)].
    + vm_compute. reflexivity.
    + exact Hne.
    + exfalso. apply Hjwe. vm_compute. reflexivity.
  - rewrite Hbare by (vm_compute; reflexivity). vm_compute. reflexivity.
Defined.

(** ** C4: the bearer token takes precedence *)

(** C4, as stated, fails when nothing follows the prefix: the Authorization
    header starts with the Bearer prefix, yet the descriptor comes from the
    collaborator, which was handed the jweToken header; without a
    collaborator the same request is Unauthorized. *)
Lemma extractAuthInfo_bare_prefix_consults_collaborator :
  HasPrefix (Header_Get (RequestHeader Sample.barePrefix) "Authorization") "Bearer "
    = true /\
  extractAuthInfo (Some Sample.tokens) (Some Sample.barePrefix)
    = Done (Decrypt Sample.tokens "opaque") /\
  extractAuthInfo None (Some Sample.barePrefix) = Done unauthorized /\
  ~ (exists info,
       extractAuthInfo (Some Sample.tokens) (Some Sample.barePrefix)
         = Done (Some info, None) /\
       Token info =
         TrimPrefix (Header_Get (RequestHeader Sample.barePrefix) "Authorization")
           "Bearer ").
Proof.
  repeat split; try (vm_compute; reflexivity).
  intros (info & Hx & Htoken). vm_compute in Hx, Htoken.
  inversion Hx; subst info. discriminate Htoken.
Qed.

Lemma Header_Get_sameButJWEToken (h h' : Header) (key : string) :
  sameButJWEToken h h' ->
  Textproto.CanonicalMIMEHeaderKey key
    <> Textproto.CanonicalMIMEHeaderKey JWETokenHeader ->
  Header_Get h' key = Header_Get h key.
Proof. intros Hsame Hkey. unfold Header_Get. by rewrite (Hsame _ Hkey). Qed.

(** C4, amended. For a request whose Authorization header is the Bearer
    prefix followed by a non-empty remainder, extraction returns a
    descriptor whose token is that remainder, and the result is the same
    whatever the jweToken header holds and whichever collaborator is
    configured, if any. *)
Theorem extractAuthInfo_bearer_precedence (tm : option TokenManager)
    (r : Request) (token : string) :
  Header_Get (RequestHeader r) "Authorization" = "Bearer " +:+ token ->
  token <> EmptyString ->
  exists info,
    extractAuthInfo tm (Some r) = Done (Some info, None) /\
    Token info = token /\
    forall tm' r',
      sameButJWEToken (RequestHeader r) (RequestHeader r') ->
      extractAuthInfo tm' (Some r') = Done (Some info, None).
Proof.
  intros Hauth Htoken. eexists. split; [by apply extractAuthInfo_bearer|]. split.
  - by destruct (0 <? len (Header_Get (RequestHeader r) "Impersonate-User")).
  - intros tm' r' Hsame.
    rewrite (extractAuthInfo_bearer tm' r' token); [|
      rewrite (Header_Get_sameButJWEToken _ _ _ Hsame); [done|by vm_compute] |done].
    rewrite (Header_Get_sameButJWEToken _ _ "Impersonate-User" Hsame)
      by (by vm_compute).
    rewrite (Hsame "Impersonate-Group") by (by vm_compute).
    rewrite (collectExtra_ext (RequestHeader r) (RequestHeader r')); [done|].
    intros name Hp. apply Hsame. intros ->. by vm_compute in Hp.
Qed.

Lemma extractAuthInfo_bearer_precedence_witness :
  extractAuthInfo (Some Sample.tokens)
    (Some (Sample.request {[ "Authorization" := ["Bearer abc"];
                             "Jwetoken" := ["opaque"] ]}))
  = Done (Some (bearerOnly "abc"), None).
Proof.
  destruct (extractAuthInfo_bearer_precedence None Sample.bearer "abc")
    as (info & Hx & Htoken & Hany).
  - vm_compute. reflexivity.
  - discriminate.
  - assert (Hinfo : info = bearerOnly "abc").
    { vm_compute in Hx. by inversion Hx. }
    rewrite <- Hinfo. apply Hany.
    intros name Hname. simpl. vm_compute in Hname.
    destruct (decide (name = "Authorization")) as [->|Hauth].
    + vm_compute. reflexivity.
    + rewrite lookup_insert_ne by done.
      rewrite !lookup_singleton_ne; [done|done|].
      intros Heq. apply Hname. by rewrite Heq.
Defined.

(** ** C3: impersonation *)

(** C3. For a request that carries a bearer token (the Bearer prefix and a
    non-empty remainder) and an Impersonate-User header (a non-empty value,
    as [HeaderParameter] reports it), extraction returns a descriptor whose
    impersonated user is that value, whose impersonated groups are the
    values of the Impersonate-Group header in their order, and whose extra
    mapping sends, for every header whose name starts with
    Impersonate-Extra-, the rest of the name to all values of that header,
    and holds nothing else. With a bearer token and no Impersonate-User
    value the impersonation fields are empty. *)
Theorem extractAuthInfo_impersonation (tm : option TokenManager) (r : Request)
    (token : string) :
  Header_Get (RequestHeader r) "Authorization" = "Bearer " +:+ token ->
  token <> EmptyString ->
  (forall user,
     Header_Get (RequestHeader r) "Impersonate-User" = user ->
     user <> EmptyString ->
     exists info,
       extractAuthInfo tm (Some r) = Done (Some info, None) /\
       Token info = token /\
       Impersonate info = user /\
       ImpersonateGroups info = default [] (RequestHeader r !! "Impersonate-Group") /\
       (forall name values,
          RequestHeader r !! name = Some values ->
          HasPrefix name ImpersonateUserExtraHeader = true ->
          ImpersonateUserExtra info
            !! sliceFrom (len ImpersonateUserExtraHeader) name = Some values) /\
       (forall extraName values,
          ImpersonateUserExtra info !! extraName = Some values ->
          RequestHeader r !! (ImpersonateUserExtraHeader +:+ extraName)
            = Some values))
  /\
  (Header_Get (RequestHeader r) "Impersonate-User" = EmptyString ->
   extractAuthInfo tm (Some r) =
     Done (Some {| Token := token; Impersonate := EmptyString;
                   ImpersonateGroups := []; ImpersonateUserExtra := ∅ |},
           None)).
Proof.
  intros Hauth Htoken.
  rewrite (extractAuthInfo_bearer tm r token Hauth Htoken). split.
  - intros user Huser Hne. rewrite Huser.
    apply len_pos_true in Hne. rewrite Hne.
    eexists. split; [reflexivity|]. cbn [Token Impersonate ImpersonateGroups
      ImpersonateUserExtra]. repeat split.
    + intros name values Hlook Hp. rewrite collectExtra_lookup.
      by rewrite <- (HasPrefix_split _ _ Hp).
    + intros extraName values. by rewrite collectExtra_lookup.
  - intros ->. reflexivity.
Qed.

Lemma extractAuthInfo_impersonation_witness :
  exists info,
    extractAuthInfo None (Some Sample.impersonating) = Done (Some info, None) /\
    Impersonate info = "alice" /\
    ImpersonateGroups info = ["dev"; "ops"] /\
    ImpersonateUserExtra info !! "reason" = Some ["audit"; "followup"].
Proof.
  destruct (extractAuthInfo_impersonation None Sample.impersonating "abc")
    as [Himp _].
  - vm_compute. reflexivity.
  - discriminate.
  - destruct (Himp "alice") as (info & Hx & _ & Huser & Hgroups & Hextra & _).
    + vm_compute. reflexivity.
    + discriminate.
    + exists info. repeat split; [exact Hx|exact Huser|exact Hgroups|].
      apply (Hextra "Impersonate-Extra-reason"); vm_compute; reflexivity.
Defined.

(** ** C10: a header that is present but not a credential *)

Lemma ClientCmdConfig_extract_error (env : Env) (self : clientManager)
    (req : option Request) (info : option AuthInfo) (e : error) :
  extractAuthInfo (tokenManager self) req = Done (info, Some e) ->
  ClientCmdConfig env self req = Done (Err e).
Proof. unfold ClientCmdConfig. by intros ->. Qed.

Lemma secureConfig_extract_error (env : Env) (self : clientManager)
    (req : option Request) (info : option AuthInfo) (e : error) :
  extractAuthInfo (tokenManager self) req = Done (info, Some e) ->
  secureConfig env self req = Done (Err e).
Proof.
  intros H. unfold secureConfig.
  by rewrite (ClientCmdConfig_extract_error env self req info e H).
Qed.

Lemma secureWith_extract_error {C : Type} (env : Env)
    (newForConfig : RestConfig -> result C) (self : clientManager)
    (req : option Request) (info : option AuthInfo) (e : error) :
  extractAuthInfo (tokenManager self) req = Done (info, Some e) ->
  secureWith env newForConfig self req = Done (Err e).
Proof.
  intros H. unfold secureWith.
  by rewrite (secureConfig_extract_error env self req info e H).
Qed.

(** C10. A request whose Authorization header is not empty and has no
    Bearer prefix, and which has no jweToken header, passes the existence
    check while extraction fails Unauthorized. With login enabled and
    skip-login allowed such a request is in secure mode, and resolving a
    client of any family, or the configuration, fails with that error; the
    insecure client is not returned. *)
Theorem containsAuthInfo_without_credential (env : Env) (self : clientManager)
    (r : Request) :
  Header_Get (RequestHeader r) "Authorization" <> EmptyString ->
  HasPrefix (Header_Get (RequestHeader r) "Authorization") "Bearer " = false ->
  Header_Get (RequestHeader r) JWETokenHeader = EmptyString ->
  containsAuthInfo (Some r) = Done true /\
  extractAuthInfo (tokenManager self) (Some r) =
    Done (None, Some (NewUnauthorized MsgLoginUnauthorizedError)) /\
  (isLoginEnabled env (Some r) = Done true ->
   GetEnableSkipLogin env = true ->
   isSecureModeEnabled env self (Some r) = Done true /\
   Client env self (Some r) =
     Done (Err (NewUnauthorized MsgLoginUnauthorizedError)) /\
   APIExtensionsClient env self (Some r) =
     Done (Err (NewUnauthorized MsgLoginUnauthorizedError)) /\
   PluginClient env self (Some r) =
     Done (Err (NewUnauthorized MsgLoginUnauthorizedError)) /\
   Config env self (Some r) =
     Done (Err (NewUnauthorized MsgLoginUnauthorizedError))).
Proof.
  intros Hauth Hprefix Hjwe.
  assert (Hx : extractAuthInfo (tokenManager self) (Some r) = Done unauthorized).
  { apply extractAuthInfo_no_credential; [done|by left]. }
  assert (Hc : containsAuthInfo (Some r) = Done true).
  { rewrite containsAuthInfo_Some. apply len_pos_true in Hauth. by rewrite Hauth. }
  split; [done|]. split; [done|].
  intros Hlogin Hskip.
  assert (Hs : isSecureModeEnabled env self (Some r) = Done true).
  { unfold isSecureModeEnabled. rewrite Hlogin. simpl. rewrite Hskip. simpl.
    exact Hc. }
  split; [done|].
  unfold Client, APIExtensionsClient, PluginClient, Config.
  rewrite Hs. simpl.
  unfold secureClient, secureAPIExtensionsClient, securePluginClient.
  rewrite !(secureWith_extract_error env _ self (Some r) None _ Hx).
  by rewrite (secureConfig_extract_error env self (Some r) None _ Hx).
Qed.

Lemma containsAuthInfo_without_credential_witness :
  containsAuthInfo (Some Sample.basic) = Done true /\
  extractAuthInfo (Some Sample.tokens) (Some Sample.basic) = Done unauthorized /\
  Client (Sample.env Sample.kube) (Sample.manager (Some Sample.tokens))
    (Some Sample.basic)
  = Done (Err (NewUnauthorized MsgLoginUnauthorizedError)).
Proof.
  destruct (containsAuthInfo_without_credential (Sample.env Sample.kube)
              (Sample.manager (Some Sample.tokens)) Sample.basic)
    as (Hc & Hx & Hsecure).
  - vm_compute. discriminate.
  - vm_compute. reflexivity.
  - vm_compute. reflexivity.
  - split; [exact Hc|]. split; [exact Hx|].
    destruct Hsecure as (_ & Hclient & _).
    + vm_compute. reflexivity.
    + reflexivity.
    + exact Hclient.
Defined.

(** ** C2: the authorization gate *)

Lemma extractAuthInfo_returns (tm : option TokenManager) (r : Request) :
  exists extracted, extractAuthInfo tm (Some r) = Done extracted.
Proof.
  unfold extractAuthInfo. simpl.
  repeat match goal with
         | |- context [if ?b then _ else _] => destruct b
         | |- context [match ?x with Some _ => _ | None => _ end] => destruct x
         end; eauto.
Qed.

Lemma Client_returns (env : Env) (self : clientManager) (r : Request) :
  exists client, Client env self (Some r) = Done client.
Proof.
  unfold Client. rewrite isSecureModeEnabled_Some. cbn [andThen].
  match goal with |- context [if ?b then _ else _] => destruct b end; [|eauto].
  unfold secureClient, secureWith, secureConfig, ClientCmdConfig.
  destruct (extractAuthInfo_returns (tokenManager self) r) as [[info err] ->].
  cbn [andThen].
  destruct err; cbn [andThen]; [eauto|].
  destruct (buildConfigFromFlags _ _ _ _); cbn [andThen]; [|eauto].
  destruct (resolveClientConfig _ _); cbn [andThen]; eauto.
Qed.

(** C2. On a request, [CanI] always returns a boolean. If extraction yields
    no descriptor while a certificate file and a key file are configured,
    it returns false. Otherwise, if resolving the client fails, or the
    access review fails, that error is logged and it returns false; and if
    both succeed it returns the Allowed verdict of the cluster's answer. *)
Theorem CanI_verdict (env : Env) (self : clientManager) (r : Request)
    (ssar : SelfSubjectAccessReview) :
  (exists verdict logged, CanI env self (Some r) ssar = Done (verdict, logged)) /\
  (failsClosed env self r -> CanI env self (Some r) ssar = Done (false, [])) /\
  (~ failsClosed env self r ->
   forall err,
     Client env self (Some r) = Done (Err err) ->
     CanI env self (Some r) ssar = Done (false, [err])) /\
  (~ failsClosed env self r ->
   forall client err,
     Client env self (Some r) = Done (Ok client) ->
     CreateSelfSubjectAccessReview client ssar = Err err ->
     CanI env self (Some r) ssar = Done (false, [err])) /\
  (~ failsClosed env self r ->
   forall client response,
     Client env self (Some r) = Done (Ok client) ->
     CreateSelfSubjectAccessReview client ssar = Ok response ->
     CanI env self (Some r) ssar = Done (Allowed response, [])).
Proof.
  destruct (extractAuthInfo_returns (tokenManager self) r) as [[info e] Hx].
  destruct (Client_returns env self r) as [client Hclient].
  set (closed := bool_decide (info = None) && (0 <? len (GetCertFile env))
                 && (0 <? len (GetKeyFile env))).
  assert (Hform : CanI env self (Some r) ssar =
    if closed then Done (false, [])
    else match client with
         | Err err => Done (false, [err])
         | Ok client =>
             match CreateSelfSubjectAccessReview client ssar with
             | Err err => Done (false, [err])
             | Ok response => Done (Allowed response, [])
             end
         end).
  { unfold CanI. rewrite Hx. cbn [andThen]. fold closed.
    destruct closed; [done|]. rewrite Hclient. cbn [andThen]. by destruct client. }
  assert (Hiff : failsClosed env self r <-> closed = true).
  { unfold failsClosed, closed. rewrite !andb_true_iff, bool_decide_eq_true.
    rewrite !len_pos_true. rewrite Hx. split.
    - intros [[err Herr] [? ?]]. by inversion Herr.
    - intros [[-> ?] ?]. eauto. }
  split; [|split; [|split; [|split]]].
  - rewrite Hform. destruct closed; [eauto|].
    destruct client as [client|err]; [|eauto].
    destruct (CreateSelfSubjectAccessReview client ssar); eauto.
  - intros Hclosed. apply Hiff in Hclosed. by rewrite Hform, Hclosed.
  - intros Hopen err Herr. rewrite Herr in Hclient. inversion Hclient; subst client.
    rewrite Hform. destruct closed; [|done]. exfalso. by apply Hopen, Hiff.
  - intros Hopen k err Hk Herr. rewrite Hk in Hclient. inversion Hclient; subst client.
    rewrite Hform, Herr. destruct closed; [|done]. exfalso. by apply Hopen, Hiff.
  - intros Hopen k response Hk Hresp. rewrite Hk in Hclient.
    inversion Hclient; subst client.
    rewrite Hform, Hresp. destruct closed; [|done]. exfalso. by apply Hopen, Hiff.
Qed.

Lemma CanI_verdict_witness :
  CanI (Sample.env Sample.kube) (Sample.manager None) (Some Sample.anonymous)
    Sample.review = Done (false, []) /\
  CanI (Sample.env Sample.kube) (Sample.manager None) (Some Sample.bearer)
    Sample.review = Done (true, []) /\
  CanI (Sample.env Sample.kubeDenied) (Sample.manager None) (Some Sample.bearer)
    Sample.review = Done (false, [Sample.refused]).
Proof.
  assert (Hopen : forall client,
    ~ failsClosed (Sample.env client) (Sample.manager None) Sample.bearer).
  { intros client [[err Herr] _]. vm_compute in Herr. discriminate Herr. }
  split; [|split].
  - apply (CanI_verdict (Sample.env Sample.kube) (Sample.manager None)
             Sample.anonymous Sample.review).
    split; [|split].
    + eexists. vm_compute. reflexivity.
    + vm_compute. discriminate.
    + vm_compute. discriminate.
  - destruct (CanI_verdict (Sample.env Sample.kube) (Sample.manager None)
                Sample.bearer Sample.review) as (_ & _ & _ & _ & Hok).
    apply (Hok (Hopen _) Sample.kube
             {| ReviewSpec := "get pods"; Allowed := true |});
      vm_compute; reflexivity.
  - destruct (CanI_verdict (Sample.env Sample.kubeDenied) (Sample.manager None)
                Sample.bearer Sample.review) as (_ & _ & _ & Hfail & _).
    apply (Hfail (Hopen _) Sample.kubeDenied Sample.refused);
      vm_compute; reflexivity.
Defined.

(** ** C6: the nil request *)

(** C6, as stated, fails for two of the listed operations: on a nil request
    [ClientCmdConfig] and [CanI] dereference the request in
    [extractAuthInfo] and panic; neither reports a bad request. *)
Lemma nil_request_panics :
  ClientCmdConfig (Sample.env Sample.kube) (Sample.manager None) None
    = Panicked NilPointerDereference /\
  ~ failsWithBadRequest
      (ClientCmdConfig (Sample.env Sample.kube) (Sample.manager None) None) /\
  CanI (Sample.env Sample.kube) (Sample.manager None) None Sample.review
    = Panicked NilPointerDereference.
Proof.
  repeat split; try reflexivity.
  intros [msg Hmsg]. discriminate Hmsg.
Qed.

(** C6, amended. [Client], [APIExtensionsClient], [PluginClient], [Config]
    and [VerberClient], called with a nil request, fail with a bad-request
    condition; the outcome is fixed before any collaborator or any field of
    the manager is read, as it is the same for all of them. *)
Theorem nil_request_is_bad_request (env : Env) (self : clientManager)
    (config : option RestConfig) :
  Client env self None
    = Done (Err (StatusError StatusReasonBadRequest "request can not be nil")) /\
  APIExtensionsClient env self None
    = Done (Err (StatusError StatusReasonBadRequest "request can not be nil!")) /\
  PluginClient env self None
    = Done (Err (StatusError StatusReasonBadRequest "request can not be nil!")) /\
  Config env self None
    = Done (Err (StatusError StatusReasonBadRequest "request can not be nil")) /\
  VerberClient env self None config
    = Done (Err (StatusError StatusReasonBadRequest "request can not be nil")) /\
  failsWithBadRequest (Client env self None) /\
  failsWithBadRequest (APIExtensionsClient env self None) /\
  failsWithBadRequest (PluginClient env self None) /\
  failsWithBadRequest (Config env self None) /\
  failsWithBadRequest (VerberClient env self None config).
Proof. unfold failsWithBadRequest. repeat split; eexists; reflexivity. Qed.

(** ** C8: the access probe *)

(** C8. Once the probe has its client: a Forbidden failure of the
    server-version call returns the username derived from the error text
    together with the error; a Forbidden failure of the token review, after
    a successful server-version call, returns the derived username and no
    error; any other failure of either call returns the error and an empty
    username. *)
Theorem HasAccess_probe (env : Env) (self : clientManager) (authInfo : AuthInfo)
    (cfg cfg' : RestConfig) (client : KubernetesInterface) :
  buildConfigFromFlags env self (apiserverHost self) (kubeConfigPath self) = Ok cfg ->
  resolveClientConfig env (buildCmdConfig (Some authInfo) cfg) = Ok cfg' ->
  kubernetesNewForConfig env cfg' = Ok client ->
  let tokenReview := {| ReviewToken := Token authInfo; Username := EmptyString |} in
  (forall err,
     ServerVersion client = Err err -> IsForbidden err = true ->
     HasAccess env self authInfo
       = (getUsernameFromErrorText (errorText err), Some err)) /\
  (forall err,
     ServerVersion client = Err err -> IsForbidden err = false ->
     HasAccess env self authInfo = (EmptyString, Some err)) /\
  (forall version err,
     ServerVersion client = Ok version ->
     CreateTokenReview client tokenReview = Err err -> IsForbidden err = true ->
     HasAccess env self authInfo
       = (getUsernameFromErrorText (errorText err), None)) /\
  (forall version err,
     ServerVersion client = Ok version ->
     CreateTokenReview client tokenReview = Err err -> IsForbidden err = false ->
     HasAccess env self authInfo = (EmptyString, Some err)).
Proof.
  intros Hcfg Hresolve Hnew tokenReview. unfold HasAccess.
  rewrite Hcfg, Hresolve, Hnew. fold tokenReview.
  repeat split.
  - by intros err -> ->.
  - by intros err -> ->.
  - by intros version err -> -> ->.
  - by intros version err -> -> ->.
Qed.

Lemma HasAccess_probe_witness :
  HasAccess (Sample.env Sample.kubeDenied) (Sample.manager None) (bearerOnly "abc")
    = ("system:anonymous", Some Sample.forbidden) /\
  HasAccess (Sample.env Sample.kubeReviewDenied) (Sample.manager None)
    (bearerOnly "abc")
    = ("system:anonymous", None).
Proof.
  split.
  - refine (eq_trans
      (proj1 (HasAccess_probe (Sample.env Sample.kubeDenied) (Sample.manager None)
                (bearerOnly "abc") _ _ Sample.kubeDenied _ _ _)
         Sample.forbidden _ _) _).
    + vm_compute. reflexivity.
    + vm_compute. reflexivity.
    + reflexivity.
    + reflexivity.
    + reflexivity.
    + vm_compute. reflexivity.
  - refine (eq_trans
      (proj1 (proj2 (proj2
         (HasAccess_probe (Sample.env Sample.kubeReviewDenied) (Sample.manager None)
            (bearerOnly "abc") _ _ Sample.kubeReviewDenied _ _ _)))
         "v1.21" Sample.forbidden _ _ _) _).
    + vm_compute. reflexivity.
    + vm_compute. reflexivity.
    + reflexivity.
    + reflexivity.
    + reflexivity.
    + reflexivity.
    + vm_compute. reflexivity.
Defined.

Example HasAccess_granted :
  HasAccess (Sample.env Sample.kube) (Sample.manager None) (bearerOnly "abc")
  = ("dashboard", None).
Proof. vm_compute. reflexivity. Qed.

(** ** The username pattern *)

Section Spans.

Variable p : ascii -> bool.

Lemma takeWhile_dropWhile (s : string) : takeWhile p s +:+ dropWhile p s = s.
Proof.
  induction s as [|c s IH]; simpl; [done|].
  destruct (p c); [|done]. by rewrite append_String, IH.
Qed.

Lemma allBytes_takeWhile (s : string) : allBytes p (takeWhile p s) = true.
Proof.
  induction s as [|c s IH]; simpl; [done|].
  destruct (p c) eqn:Hc; simpl; [|done]. by rewrite Hc.
Qed.

Lemma takeWhile_dropWhile_nil (s : string) : takeWhile p (dropWhile p s) = EmptyString.
Proof.
  induction s as [|c s IH]; simpl; [done|].
  destruct (p c) eqn:Hc; [done|]. simpl. by rewrite Hc.
Qed.

Lemma takeWhile_app (a s : string) :
  allBytes p a = true -> takeWhile p (a +:+ s) = a +:+ takeWhile p s.
Proof.
  induction a as [|c a IH]; [done|].
  rewrite !append_String. simpl. intros [Hc Ha]%andb_true_iff.
  by rewrite Hc, IH.
Qed.

Lemma dropWhile_app (a s : string) :
  allBytes p a = true -> dropWhile p (a +:+ s) = dropWhile p s.
Proof.
  induction a as [|c a IH]; [done|].
  rewrite !append_String. simpl. intros [Hc Ha]%andb_true_iff.
  by rewrite Hc, IH.
Qed.

Lemma sliceTo_takeWhile (s : string) :
  sliceTo (len (takeWhile p s)) s = takeWhile p s.
Proof.
  induction s as [|c s IH]; simpl; [done|].
  destruct (p c); simpl; [|done]. by rewrite IH.
Qed.

(** A repetition takes the longest run when what follows cannot start with
    a byte of the class. *)
Lemma star_skip {R : Type} (pos : nat) (rest : string) (caps : list string)
    (k : cont R) :
  (forall pos' c rest', p c = true -> k pos' (String c rest') caps = None) ->
  star p pos rest caps k
  = k (pos + len (takeWhile p rest)) (dropWhile p rest) caps.
Proof.
  intros Hk. revert pos.
  induction rest as [|c rest IH]; intros pos; simpl.
  - by rewrite Nat.add_0_r.
  - destruct (p c) eqn:Hc.
    + rewrite IH. simpl. rewrite Nat.add_succ_r.
      destruct (k _ _ _); [done|]. by apply Hk.
    + simpl. by rewrite Nat.add_0_r.
Qed.

(** It also takes the longest run when what follows accepts there. *)
Lemma star_longest {R : Type} (pos : nat) (rest : string) (caps : list string)
    (k : cont R) (res : R) :
  k (pos + len (takeWhile p rest)) (dropWhile p rest) caps = Some res ->
  star p pos rest caps k = Some res.
Proof.
  revert pos.
  induction rest as [|c rest IH]; intros pos; simpl.
  - by rewrite Nat.add_0_r.
  - destruct (p c) eqn:Hc.
    + simpl. rewrite Nat.add_succ_r. intros Hk. by rewrite (IH (S pos) Hk).
    + simpl. by rewrite Nat.add_0_r.
Qed.

Lemma run_group_plus_skip {R : Type} (n pos : nat) (s : string)
    (caps : list string) (k : cont R) :
  (forall pos' c rest' caps', p c = true -> k pos' (String c rest') caps' = None) ->
  run (Group n (Plus p)) pos s caps k
  = match leadingSegment p s with
    | Some (a, s1) => k (pos + len a) s1 (<[n := a]> caps)
    | None => None
    end.
Proof.
  intros Hk. destruct s as [|c s]; simpl; [done|].
  destruct (p c) eqn:Hc; [|done].
  rewrite star_skip by (intros; by apply Hk).
  rewrite Nat.add_succ_l, <- Nat.add_succ_r.
  replace (pos + S (len (takeWhile p s)) - pos)
    with (S (len (takeWhile p s))) by lia.
  cbn [sliceTo takeWhile String.length]. rewrite ?Hc.
  by rewrite (sliceTo_takeWhile s).
Qed.

Lemma run_group_plus_longest {R : Type} (n pos : nat) (s : string)
    (caps : list string) (k : cont R) :
  (forall pos' rest' caps', is_Some (k pos' rest' caps')) ->
  run (Group n (Plus p)) pos s caps k
  = match leadingSegment p s with
    | Some (a, s1) => k (pos + len a) s1 (<[n := a]> caps)
    | None => None
    end.
Proof.
  intros Hk. destruct s as [|c s]; simpl; [done|].
  destruct (p c) eqn:Hc; [|done].
  destruct (Hk (pos + S (len (takeWhile p s))) (dropWhile p s)
              (<[n := String c (takeWhile p s)]> caps)) as [res Hres].
  cbn [takeWhile String.length]. rewrite ?Hc, Hres. apply star_longest.
  rewrite Nat.add_succ_l, <- Nat.add_succ_r.
  replace (pos + S (len (takeWhile p s)) - pos)
    with (S (len (takeWhile p s))) by lia.
  cbn [sliceTo]. by rewrite (sliceTo_takeWhile s).
Qed.

Lemma leadingSegment_Some (s a s1 : string) :
  leadingSegment p s = Some (a, s1) ->
  s = a +:+ s1 /\ a <> EmptyString /\ allBytes p a = true /\
  takeWhile p s1 = EmptyString.
Proof.
  destruct s as [|c s]; [done|]. unfold leadingSegment.
  destruct (p c) eqn:Hc; [|done]. intros Heq.
  assert (Ha : a = takeWhile p (String c s)) by congruence.
  assert (Hs1 : s1 = dropWhile p (String c s)) by congruence.
  subst a s1. clear Heq.
  split; [symmetry; apply takeWhile_dropWhile|].
  split; [simpl; by rewrite Hc|].
  split; [apply allBytes_takeWhile|apply takeWhile_dropWhile_nil].
Qed.

Lemma leadingSegment_app (a s : string) :
  a <> EmptyString -> allBytes p a = true ->
  leadingSegment p (a +:+ s) = Some (a +:+ takeWhile p s, dropWhile p s).
Proof.
  intros Hne Ha. destruct a as [|c a]; [done|].
  rewrite append_String. unfold leadingSegment.
  rewrite <- append_String, takeWhile_app, dropWhile_app by done.
  simpl in Ha. apply andb_true_iff in Ha as [-> _]. done.
Qed.

End Spans.

Lemma takeWhile_ext (p q : ascii -> bool) (s : string) :
  (forall c, p c = q c) -> takeWhile p s = takeWhile q s.
Proof.
  intros H. induction s as [|c s IH]; simpl; [done|]. by rewrite H, IH.
Qed.

Lemma dropWhile_ext (p q : ascii -> bool) (s : string) :
  (forall c, p c = q c) -> dropWhile p s = dropWhile q s.
Proof.
  intros H. induction s as [|c s IH]; simpl; [done|]. by rewrite H, IH.
Qed.

Lemma leadingSegment_ext (p q : ascii -> bool) (s : string) :
  (forall c, p c = q c) -> leadingSegment p s = leadingSegment q s.
Proof.
  intros H. destruct s as [|c s]; [done|]. unfold leadingSegment.
  by rewrite H, (takeWhile_ext p q), (dropWhile_ext p q).
Qed.

(** The two classes of the pattern hold the same bytes. *)
Lemma isWordHyphenUnderscore_isWordOrHyphen (c : ascii) :
  isWordHyphenUnderscore c = isWordOrHyphen c.
Proof.
  unfold isWordHyphenUnderscore, isWordOrHyphen, isWord.
  destruct (inRange 48 57 c), (inRange 65 90 c), (inRange 97 122 c),
    (Ascii.eqb c "_"), (Ascii.eqb c "-"); reflexivity.
Qed.

Lemma run_colon {R : Type} (r : regexp) (pos : nat) (s : string)
    (caps : list string) (k : cont R) :
  run (Seq (Lit ":") r) pos s caps k
  = match afterColon s with
    | Some s' => run r (pos + 1) s' caps k
    | None => None
    end.
Proof.
  destruct s as [|c s]; simpl; [done|]. by destruct (Ascii.eqb c ":").
Qed.

Lemma run_colon_skip {R : Type} (p : ascii -> bool) (r : regexp) (pos : nat)
    (c : ascii) (s : string) (caps : list string) (k : cont R) :
  p ":"%char = false -> p c = true ->
  run (Seq (Lit ":") r) pos (String c s) caps k = None.
Proof.
  intros Hcolon Hc. rewrite run_colon. simpl.
  destruct (Ascii.eqb_spec c ":") as [->|]; [congruence|done].
Qed.

Lemma append_empty_r (s : string) : s +:+ EmptyString = s.
Proof. induction s as [|c s IH]; [done|]. by rewrite append_String, IH. Qed.

Lemma append_assoc (a b c : string) : (a +:+ b) +:+ c = a +:+ b +:+ c.
Proof. induction a as [|x a IH]; [done|]. by rewrite !append_String, IH. Qed.

Lemma len_append (a b : string) : len (a +:+ b) = len a + len b.
Proof. induction a as [|x a IH]; [done|]. rewrite append_String. simpl. lia. Qed.

Lemma run_seq {R : Type} (r1 r2 : regexp) (pos : nat) (s : string)
    (caps : list string) (k : cont R) :
  run (Seq r1 r2) pos s caps k
  = run r1 pos s caps (fun pos' rest' caps' => run r2 pos' rest' caps' k).
Proof. reflexivity. Qed.

(** The matcher on the username pattern agrees with the direct reading. *)
Lemma matchAt_usernameRe (pos : nat) (s : string) :
  match parseUsername s with
  | Some (a, b, c, d, _) =>
      exists whole e,
        matchAt usernameRe pos s = Some (Submatch pos e [whole; a; b; c; d])
  | None => matchAt usernameRe pos s = None
  end.
Proof.
  unfold matchAt, parseUsername, usernameRe.
  rewrite run_seq, run_group_plus_skip
    by (intros; by apply (run_colon_skip isWordOrHyphen)).
  destruct (leadingSegment isWordOrHyphen s) as [[a s1]|]; [|done].
  rewrite run_colon. destruct (afterColon s1) as [s2|]; [|done].
  rewrite run_seq, run_group_plus_skip
    by (intros; by apply (run_colon_skip isWordOrHyphen)).
  destruct (leadingSegment isWordOrHyphen s2) as [[b s3]|]; [|done].
  rewrite run_colon. destruct (afterColon s3) as [s4|]; [|done].
  rewrite run_seq, run_group_plus_skip
    by (intros; by apply (run_colon_skip isWordHyphenUnderscore)).
  destruct (leadingSegment isWordHyphenUnderscore s4) as [[c s5]|]; [|done].
  rewrite run_colon. destruct (afterColon s5) as [s6|]; [|done].
  rewrite run_group_plus_longest by (intros; eauto).
  destruct (leadingSegment isWordOrHyphen s6) as [[d post]|]; [|done].
  eexists _, _. reflexivity.
Qed.

(** ** Leftmost search *)

Lemma findFrom_here (re : regexp) (pos : nat) (s : string) (m : submatch) :
  matchAt re pos s = Some m -> findFrom re pos s = Some m.
Proof. intros H. destruct s; simpl; by rewrite H. Qed.

Lemma findFrom_Some (re : regexp) (pos : nat) (s : string) (m : submatch) :
  findFrom re pos s = Some m ->
  exists pre suf,
    s = pre +:+ suf /\
    matchAt re (pos + len pre) suf = Some m /\
    forall pre2 suf2,
      s = pre2 +:+ suf2 -> len pre2 < len pre ->
      matchAt re (pos + len pre2) suf2 = None.
Proof.
  revert pos. induction s as [|c s IH]; intros pos Hfind.
  - simpl in Hfind. destruct (matchAt re pos EmptyString) eqn:Hm; [|done].
    exists EmptyString, EmptyString. simpl. rewrite Nat.add_0_r.
    split; [done|]. split; [congruence|]. intros ? ? _ ?. lia.
  - simpl in Hfind. destruct (matchAt re pos (String c s)) eqn:Hm.
    + exists EmptyString, (String c s). simpl. rewrite Nat.add_0_r.
      split; [done|]. split; [congruence|]. intros ? ? _ ?. lia.
    + destruct (IH (S pos) Hfind) as (pre & suf & -> & Hat & Hleft).
      exists (String c pre), suf. rewrite append_String. simpl.
      rewrite Nat.add_succ_r. split; [done|]. split; [done|].
      intros pre2 suf2 Heq Hlt. destruct pre2 as [|c2 pre2].
      * change (EmptyString +:+ suf2) with suf2 in Heq. subst suf2.
        simpl. by rewrite Nat.add_0_r.
      * rewrite append_String in Heq. injection Heq as -> Heq.
        simpl in *. rewrite Nat.add_succ_r. apply Hleft; [done|lia].
Qed.


(** ** C7: display names *)

Lemma afterColon_Some (s s' : string) : afterColon s = Some s' -> s = ":" +:+ s'.
Proof.
  destruct s as [|c s]; [done|]. simpl.
  destruct (Ascii.eqb_spec c ":") as [->|]; [|done]. by intros [= ->].
Qed.

Lemma leadingSegment_colon (a s : string) :
  segment a ->
  leadingSegment isWordOrHyphen (a +:+ ":" +:+ s) = Some (a, ":" +:+ s).
Proof.
  intros [Hne Ha]. rewrite leadingSegment_app by done.
  change (takeWhile isWordOrHyphen (":" +:+ s)) with EmptyString.
  change (dropWhile isWordOrHyphen (":" +:+ s)) with (":" +:+ s).
  by rewrite append_empty_r.
Qed.

Lemma parseUsername_sound (s a b c d post : string) :
  parseUsername s = Some (a, b, c, d, post) ->
  occurrence s EmptyString a b c d post /\
  takeWhile isWordOrHyphen post = EmptyString.
Proof.
  unfold parseUsername.
  destruct (leadingSegment isWordOrHyphen s) as [[a' s1]|] eqn:H1; [|done].
  destruct (afterColon s1) as [s2|] eqn:H2; [|done].
  destruct (leadingSegment isWordOrHyphen s2) as [[b' s3]|] eqn:H3; [|done].
  destruct (afterColon s3) as [s4|] eqn:H4; [|done].
  rewrite (leadingSegment_ext isWordHyphenUnderscore isWordOrHyphen)
    by apply isWordHyphenUnderscore_isWordOrHyphen.
  destruct (leadingSegment isWordOrHyphen s4) as [[c' s5]|] eqn:H5; [|done].
  destruct (afterColon s5) as [s6|] eqn:H6; [|done].
  destruct (leadingSegment isWordOrHyphen s6) as [[d' post']|] eqn:H7; [|done].
  intros [= -> -> -> -> ->].
  apply leadingSegment_Some in H1 as (-> & ? & ? & _).
  apply leadingSegment_Some in H3 as (-> & ? & ? & _).
  apply leadingSegment_Some in H5 as (-> & ? & ? & _).
  apply leadingSegment_Some in H7 as (-> & ? & ? & Hpost).
  apply afterColon_Some in H2 as ->.
  apply afterColon_Some in H4 as ->.
  apply afterColon_Some in H6 as ->.
  unfold occurrence, segment. done.
Qed.

Lemma parseUsername_complete (a b c d post : string) :
  segment a -> segment b -> segment c -> segment d ->
  parseUsername (a +:+ ":" +:+ b +:+ ":" +:+ c +:+ ":" +:+ d +:+ post)
  = Some (a, b, c, d +:+ takeWhile isWordOrHyphen post,
          dropWhile isWordOrHyphen post).
Proof.
  intros Ha Hb Hc [Hd Hd']. unfold parseUsername.
  rewrite (leadingSegment_colon a) by done.
  change (afterColon (":" +:+ ?x)) with (Some x). cbv beta iota.
  rewrite (leadingSegment_colon b) by done.
  change (afterColon (":" +:+ ?x)) with (Some x). cbv beta iota.
  rewrite (leadingSegment_ext isWordHyphenUnderscore isWordOrHyphen)
    by apply isWordHyphenUnderscore_isWordOrHyphen.
  rewrite (leadingSegment_colon c) by done.
  change (afterColon (":" +:+ ?x)) with (Some x). cbv beta iota.
  by rewrite leadingSegment_app.
Qed.

Lemma getUsername_found (name whole a b c d : string) (pos e : nat) :
  findFrom usernameRe 0 name = Some (Submatch pos e [whole; a; b; c; d]) ->
  getUsername name = d.
Proof. intros H. unfold getUsername, FindStringSubmatch. by rewrite H. Qed.

Lemma getUsername_not_found (name : string) :
  findFrom usernameRe 0 name = None -> getUsername name = name.
Proof. intros H. unfold getUsername, FindStringSubmatch. by rewrite H. Qed.




(** * Further properties of the manager *)

(** ** The bearer token of a header *)

(** X1. [extractTokenFromHeader] yields a non-empty token exactly for the
    headers made of the Bearer prefix and that token, and yields the empty
    string exactly when the prefix is missing or nothing follows it. *)
Theorem extractTokenFromHeader_spec (authHeader : string) :
  (forall token, token <> EmptyString ->
     (extractTokenFromHeader authHeader = token <->
      authHeader = "Bearer " +:+ token)) /\
  (extractTokenFromHeader authHeader = EmptyString <->
   HasPrefix authHeader "Bearer " = false \/ authHeader = "Bearer ").
Proof.
  split.
  - intros token Hne. split.
    + intros <-. apply extractTokenFromHeader_prefixed.
      destruct (HasPrefix authHeader "Bearer ") eqn:Hp; [done|].
      by rewrite (extractTokenFromHeader_other _ Hp) in Hne.
    + intros ->. apply extractTokenFromHeader_bearer.
  - split.
    + intros Hempty.
      destruct (HasPrefix authHeader "Bearer ") eqn:Hp; [right|by left].
      rewrite (extractTokenFromHeader_prefixed _ Hp), Hempty. reflexivity.
    + intros [Hp| ->]; [by apply extractTokenFromHeader_other|reflexivity].
Qed.

Lemma extractTokenFromHeader_spec_witness :
  extractTokenFromHeader "Bearer abc" = "abc" /\
  extractTokenFromHeader "bearer abc" = EmptyString.
Proof.
  split.
  - apply (proj1 (extractTokenFromHeader_spec "Bearer abc") "abc");
      [discriminate|reflexivity].
  - apply (proj2 (extractTokenFromHeader_spec "bearer abc")).
    left. vm_compute. reflexivity.
Defined.

(** ** Existence check and extraction *)

(** X2. When the existence check finds no credential header, extraction
    fails Unauthorized whichever collaborator is configured; so whenever
    extraction returns a descriptor, or any other error, the existence
    check is true. *)
Theorem containsAuthInfo_false_unauthorized (tm : option TokenManager)
    (r : Request) :
  (containsAuthInfo (Some r) = Done false ->
   extractAuthInfo tm (Some r) = Done unauthorized) /\
  (extractAuthInfo tm (Some r) <> Done unauthorized ->
   containsAuthInfo (Some r) = Done true).
Proof.
  assert (Hfalse : containsAuthInfo (Some r) = Done false ->
                   extractAuthInfo tm (Some r) = Done unauthorized).
  { rewrite containsAuthInfo_Some. intros [= Hc].
    apply orb_false_iff in Hc as [Hauth Hjwe].
    apply len_pos_false in Hauth, Hjwe.
    apply extractAuthInfo_no_credential; [by rewrite Hauth|by left]. }
  split; [done|].
  intros Hx. rewrite containsAuthInfo_Some in *.
  destruct ((0 <? len (Header_Get (RequestHeader r) "Authorization"))
            || (0 <? len (Header_Get (RequestHeader r) JWETokenHeader)));
    [done|]. by destruct Hx; apply Hfalse.
Qed.

Lemma containsAuthInfo_false_unauthorized_witness :
  extractAuthInfo (Some Sample.tokens) (Some Sample.anonymous) = Done unauthorized /\
  containsAuthInfo (Some Sample.opaque) = Done true.
Proof.
  split.
  - apply (containsAuthInfo_false_unauthorized (Some Sample.tokens) Sample.anonymous).
    vm_compute. reflexivity.
  - apply (containsAuthInfo_false_unauthorized (Some Sample.tokens) Sample.opaque).
    vm_compute. discriminate.
Defined.

(** ** The insecure clients *)

(** X3. When login is not enabled, or skip-login is allowed and the request
    has no credential header, the four resolve operations return the
    values the manager holds since start-up, whatever else the request
    carries and whatever the client constructors would do. *)
Theorem insecure_mode_singletons (env : Env) (self : clientManager) (r : Request) :
  (TLS r = None /\ GetEnableInsecureLogin env = false) \/
  (GetEnableSkipLogin env = true /\ containsAuthInfo (Some r) = Done false) ->
  isSecureModeEnabled env self (Some r) = Done false /\
  Client env self (Some r) = Done (Ok (insecureClient self)) /\
  APIExtensionsClient env self (Some r)
    = Done (Ok (insecureAPIExtensionsClient self)) /\
  PluginClient env self (Some r) = Done (Ok (insecurePluginClient self)) /\
  Config env self (Some r) = Done (Ok (insecureConfig self)).
Proof.
  intros Hmode.
  assert (Hs : isSecureModeEnabled env self (Some r) = Done false).
  { rewrite isSecureModeEnabled_Some. f_equal.
    destruct Hmode as [[Htls Hlogin]|[Hskip Hc]].
    - rewrite Htls, Hlogin.
      rewrite bool_decide_eq_false_2 by (by intros [? ?]). done.
    - rewrite containsAuthInfo_Some in Hc. injection Hc as Hc.
      rewrite Hskip. cbn [negb]. rewrite Hc.
      by rewrite !andb_false_r. }
  split; [done|].
  unfold Client, APIExtensionsClient, PluginClient, Config. by rewrite Hs.
Qed.

Lemma insecure_mode_singletons_witness :
  Client Sample.strictEnv (Sample.manager None) (Some Sample.bearer)
    = Done (Ok Sample.kube) /\
  Client (Sample.env Sample.kubeDenied) (Sample.manager None) (Some Sample.anonymous)
    = Done (Ok Sample.kube).
Proof.
  split.
  - apply (insecure_mode_singletons Sample.strictEnv (Sample.manager None)
             Sample.bearer).
    left. split; reflexivity.
  - apply (insecure_mode_singletons (Sample.env Sample.kubeDenied)
             (Sample.manager None) Sample.anonymous).
    right. split; [reflexivity|vm_compute; reflexivity].
Defined.

(** ** The secure configuration *)

(** X4. A configuration that [secureConfig] returns carries the fixed
    defaults: the default QPS and burst, the protobuf content type and the
    user agent of the dashboard with the version of the binary; its host
    and trust settings are those package clientcmd resolved for the
    request's identity. *)
Theorem secureConfig_defaults (env : Env) (self : clientManager)
    (req : option Request) (cfg : RestConfig) :
  secureConfig env self req = Done (Ok cfg) ->
  QPS cfg = DefaultQPS /\ Burst cfg = DefaultBurst /\
  ContentType cfg = DefaultContentType /\
  UserAgent cfg = DefaultUserAgent +:+ "/" +:+ Version env /\
  exists cmdConfig resolved,
    ClientCmdConfig env self req = Done (Ok cmdConfig) /\
    resolveClientConfig env cmdConfig = Ok resolved /\
    Host cfg = Host resolved /\ CAFile cfg = CAFile resolved /\
    CAData cfg = CAData resolved /\ Insecure cfg = Insecure resolved.
Proof.
  unfold secureConfig.
  destruct (ClientCmdConfig env self req) as [[cmdConfig|e]|p]; cbn [andThen];
    try discriminate.
  destruct (resolveClientConfig env cmdConfig) as [resolved|e] eqn:Hres;
    [|discriminate].
  intros [= <-]. repeat split; try reflexivity.
  exists cmdConfig, resolved. by repeat split.
Qed.

Lemma secureConfig_defaults_witness :
  exists cfg,
    secureConfig (Sample.env Sample.kube) (Sample.manager None) (Some Sample.bearer)
      = Done (Ok cfg) /\
    QPS cfg = 1000000%Z /\ UserAgent cfg = "dashboard/UNKNOWN".
Proof.
  eassert (Hcfg : secureConfig (Sample.env Sample.kube) (Sample.manager None)
                    (Some Sample.bearer) = Done (Ok _))
    by (vm_compute; reflexivity).
  eexists. split; [exact Hcfg|].
  split;
    apply (secureConfig_defaults (Sample.env Sample.kube) (Sample.manager None)
             (Some Sample.bearer) _ Hcfg).
Defined.

(** X5. In secure mode the clients of the three families and the
    configuration stand and fall together: if the secure configuration of
    the request cannot be had, all four operations fail with that very
    error; otherwise the configuration is returned and each client is what
    the constructor of its family makes of that one configuration. *)
Theorem secure_mode_shares_config (env : Env) (self : clientManager) (r : Request) :
  isSecureModeEnabled env self (Some r) = Done true ->
  (forall e,
     secureConfig env self (Some r) = Done (Err e) ->
     Client env self (Some r) = Done (Err e) /\
     APIExtensionsClient env self (Some r) = Done (Err e) /\
     PluginClient env self (Some r) = Done (Err e) /\
     Config env self (Some r) = Done (Err e)) /\
  (forall cfg,
     secureConfig env self (Some r) = Done (Ok cfg) ->
     Client env self (Some r) = Done (kubernetesNewForConfig env cfg) /\
     APIExtensionsClient env self (Some r)
       = Done (apiextensionsNewForConfig env cfg) /\
     PluginClient env self (Some r) = Done (pluginNewForConfig env cfg) /\
     Config env self (Some r) = Done (Ok (Some cfg))).
Proof.
  intros Hs.
  unfold Client, APIExtensionsClient, PluginClient, Config. rewrite Hs.
  cbn [andThen].
  unfold secureClient, secureAPIExtensionsClient, securePluginClient, secureWith.
  split; intros x ->; done.
Qed.

Lemma secure_mode_shares_config_witness :
  Client (Sample.env Sample.kube) (Sample.manager None) (Some Sample.bearer)
    = Done (Ok Sample.kube) /\
  PluginClient (Sample.env Sample.kube) (Sample.manager None) (Some Sample.basic)
    = Done (Err (NewUnauthorized MsgLoginUnauthorizedError)).
Proof.
  split.
  - refine (proj1 (proj2 (secure_mode_shares_config (Sample.env Sample.kube)
              (Sample.manager None) Sample.bearer _) _ _)).
    + vm_compute. reflexivity.
    + vm_compute. reflexivity.
  - refine (proj1 (proj2 (proj2 (proj1 (secure_mode_shares_config
              (Sample.env Sample.kube) (Sample.manager None) Sample.basic _) _ _)))).
    + vm_compute. reflexivity.
    + vm_compute. reflexivity.
Defined.

(** X6. [secureConfig] fails for exactly three reasons, tried in this
    order: extraction reports an error; no base configuration can be
    built; package clientcmd cannot resolve the configuration assembled
    for the identity. The error is handed on as it is. *)
Theorem secureConfig_failure (env : Env) (self : clientManager) (r : Request)
    (e : error) :
  secureConfig env self (Some r) = Done (Err e) <->
  (exists info,
     extractAuthInfo (tokenManager self) (Some r) = Done (info, Some e)) \/
  (exists info,
     extractAuthInfo (tokenManager self) (Some r) = Done (info, None) /\
     buildConfigFromFlags env self (apiserverHost self) (kubeConfigPath self)
       = Err e) \/
  (exists info base,
     extractAuthInfo (tokenManager self) (Some r) = Done (info, None) /\
     buildConfigFromFlags env self (apiserverHost self) (kubeConfigPath self)
       = Ok base /\
     resolveClientConfig env (buildCmdConfig info base) = Err e).
Proof.
  unfold secureConfig, ClientCmdConfig.
  destruct (extractAuthInfo_returns (tokenManager self) r) as [[info err] ->].
  cbn [andThen].
  destruct err as [e'|]; cbn [andThen].
  { split.
    - intros [= ->]. left. eauto.
    - intros [(? & [= _ ->])|[(? & [= _] & _)|(? & ? & [= _] & _)]]. done. }
  destruct (buildConfigFromFlags env self (apiserverHost self) (kubeConfigPath self))
    as [base|e'] eqn:Hbase; cbn [andThen].
  - destruct (resolveClientConfig env (buildCmdConfig info base)) as [cfg|e'] eqn:Hres.
    + split; [discriminate|].
      intros [(? & [= _])|[(? & _ & [= ])|(info' & base' & [= <-] & [= <-] & Hres')]].
      congruence.
    + split.
      * intros [= ->]. right. right. eauto.
      * intros [(? & [= _])|[(? & _ & [= ])|(info' & base' & [= <-] & [= <-] & Hres')]].
        congruence.
  - split.
    + intros [= ->]. right. left. eauto.
    + intros [(? & [= _])|[(? & _ & [= ->])|(? & ? & _ & [= ] & _)]]. done.
Qed.

Lemma secureConfig_failure_witness :
  secureConfig (Sample.env Sample.kube) (Sample.manager None) (Some Sample.anonymous)
  = Done (Err (NewUnauthorized MsgLoginUnauthorizedError)).
Proof.
  apply (secureConfig_failure (Sample.env Sample.kube) (Sample.manager None)
           Sample.anonymous).
  left. exists None. vm_compute. reflexivity.
Defined.

(** ** No base configuration *)

(** X7. A manager with no explicit path, no explicit host and no
    in-cluster configuration cannot serve an identity: [HasAccess] returns
    the Invalid error and no username for every descriptor, and
    [ClientCmdConfig] returns the Invalid error for every request whose
    credential it extracted; the loader of package clientcmd is not asked. *)
Theorem no_base_configuration (env : Env) (self : clientManager) :
  kubeConfigPath self = EmptyString ->
  apiserverHost self = EmptyString ->
  inClusterConfig self = None ->
  (forall authInfo,
     HasAccess env self authInfo
     = (EmptyString,
        Some (StatusError StatusReasonInvalid "could not create client config"))) /\
  (forall r info,
     extractAuthInfo (tokenManager self) (Some r) = Done (info, None) ->
     ClientCmdConfig env self (Some r)
     = Done (Err (StatusError StatusReasonInvalid "could not create client config"))).
Proof.
  intros Hpath Hhost Hcluster.
  assert (Hbase :
    buildConfigFromFlags env self (apiserverHost self) (kubeConfigPath self)
    = Err (NewInvalid "could not create client config")).
  { unfold buildConfigFromFlags. by rewrite Hpath, Hhost, Hcluster. }
  split.
  - intros authInfo. unfold HasAccess. by rewrite Hbase.
  - intros r info Hx. unfold ClientCmdConfig. rewrite Hx. cbn [andThen].
    by rewrite Hbase.
Qed.

Lemma no_base_configuration_witness :
  HasAccess (Sample.env Sample.kube)
    (SetTokenManager
       {| csrfKey := "key"; kubeConfigPath := EmptyString;
          apiserverHost := EmptyString; inClusterConfig := None;
          tokenManager := None;
          insecureAPIExtensionsClient := Sample.apiextensions;
          insecurePluginClient := Sample.plugin;
          insecureClient := Sample.kube;
          insecureConfig := None |} None)
    (bearerOnly "abc")
  = (EmptyString,
     Some (StatusError StatusReasonInvalid "could not create client config")).
Proof.
  apply no_base_configuration; reflexivity.
Defined.

(** ** The assembled clientcmd configuration *)

(** X8. The configuration [buildCmdConfig] assembles is closed under its
    own references: the current context exists, the cluster and the
    identity it names exist, the cluster carries the host and the trust
    settings of the base configuration, the identity is the descriptor
    given, and no other cluster, context or identity is defined. *)
Theorem buildCmdConfig_consistent (authInfo : option AuthInfo) (cfg : RestConfig) :
  let cmdCfg := buildCmdConfig authInfo cfg in
  exists context cluster,
    Contexts cmdCfg !! CurrentContext cmdCfg = Some context /\
    Clusters cmdCfg !! ContextCluster context = Some cluster /\
    AuthInfos cmdCfg !! ContextAuthInfo context = Some authInfo /\
    Server cluster = Host cfg /\
    CertificateAuthority cluster = CAFile cfg /\
    CertificateAuthorityData cluster = CAData cfg /\
    InsecureSkipTLSVerify cluster = Insecure cfg /\
    (forall name, name <> CurrentContext cmdCfg ->
       Contexts cmdCfg !! name = None /\ Clusters cmdCfg !! name = None /\
       AuthInfos cmdCfg !! name = None).
Proof.
  intros cmdCfg. subst cmdCfg. unfold buildCmdConfig, NewConfig.
  cbn [Contexts Clusters AuthInfos CurrentContext].
  eexists _, _. split; [apply lookup_insert_eq|].
  cbn [ContextCluster ContextAuthInfo].
  split; [apply lookup_insert_eq|]. split; [apply lookup_insert_eq|].
  cbn [Server CertificateAuthority CertificateAuthorityData InsecureSkipTLSVerify].
  repeat split; try reflexivity; by rewrite lookup_insert_ne, lookup_empty.
Qed.

(** ** What the gate grants *)

(** X9. [CanI] grants access only on a positive answer of the cluster to
    the review, submitted through the client resolved for the request; it
    logs at most one error, and whenever it logs one it denies. *)
Theorem CanI_grants_only_allowed (env : Env) (self : clientManager)
    (r : Request) (ssar : SelfSubjectAccessReview)
    (verdict : bool) (logged : list error) :
  CanI env self (Some r) ssar = Done (verdict, logged) ->
  (verdict = true ->
   logged = [] /\
   exists client response,
     Client env self (Some r) = Done (Ok client) /\
     CreateSelfSubjectAccessReview client ssar = Ok response /\
     Allowed response = true) /\
  (logged <> [] -> verdict = false /\ exists err, logged = [err]).
Proof.
  unfold CanI.
  destruct (extractAuthInfo_returns (tokenManager self) r) as [[info e] ->].
  cbn [andThen].
  destruct (bool_decide (info = None) && (0 <? len (GetCertFile env))
            && (0 <? len (GetKeyFile env))).
  { intros [= <- <-]. split; [discriminate|done]. }
  destruct (Client_returns env self r) as [client ->]. cbn [andThen].
  destruct client as [client|err].
  - destruct (CreateSelfSubjectAccessReview client ssar) as [response|err] eqn:Hr.
    + intros [= <- <-]. split; [|done]. intros Hallowed. split; [done|]. eauto.
    + intros [= <- <-]. split; [discriminate|]. intros _. eauto.
  - intros [= <- <-]. split; [discriminate|]. intros _. eauto.
Qed.

Lemma CanI_grants_only_allowed_witness :
  exists client response,
    Client (Sample.env Sample.kube) (Sample.manager None) (Some Sample.bearer)
      = Done (Ok client) /\
    CreateSelfSubjectAccessReview client Sample.review = Ok response /\
    Allowed response = true.
Proof.
  apply (CanI_grants_only_allowed (Sample.env Sample.kube) (Sample.manager None)
           Sample.bearer Sample.review true []).
  - vm_compute. reflexivity.
  - reflexivity.
Defined.

(** ** What the probe returns *)

(** X10. [HasAccess] never pairs a username with an error that is not
    Forbidden: a username that comes with an error is the name derived
    from the Forbidden error of the server-version call of the client
    [HasAccess] built. When [HasAccess] reports no error, the
    server-version call of that client succeeded, and the name is the
    display name of the user its token review returned, or the name
    derived from a Forbidden error of its token review. *)
Theorem HasAccess_outcomes (env : Env) (self : clientManager) (authInfo : AuthInfo)
    (name : string) :
  (forall err,
     HasAccess env self authInfo = (name, Some err) ->
     IsForbidden err = false -> name = EmptyString) /\
  (forall err,
     HasAccess env self authInfo = (name, Some err) ->
     name <> EmptyString ->
     exists client,
       probeClient env self authInfo client /\
       ServerVersion client = Err err /\
       IsForbidden err = true /\
       name = getUsernameFromErrorText (errorText err)) /\
  (HasAccess env self authInfo = (name, None) ->
   exists client,
     probeClient env self authInfo client /\
     (exists version, ServerVersion client = Ok version) /\
     ((exists reviewed,
         CreateTokenReview client
           {| ReviewToken := Token authInfo; Username := EmptyString |}
           = Ok reviewed /\
         name = getUsername (Username reviewed)) \/
      (exists err,
         CreateTokenReview client
           {| ReviewToken := Token authInfo; Username := EmptyString |}
           = Err err /\
         IsForbidden err = true /\
         name = getUsernameFromErrorText (errorText err)))).
Proof.
  unfold HasAccess, probeClient.
  destruct (buildConfigFromFlags env self (apiserverHost self) (kubeConfigPath self))
    as [cfg|e] eqn:Hcfg;
    [|split; [|split]; [by intros ? [= <- _]|by intros ? [= <- _]|discriminate]].
  destruct (resolveClientConfig env (buildCmdConfig (Some authInfo) cfg))
    as [cfg'|e] eqn:Hresolve;
    [|split; [|split]; [by intros ? [= <- _]|by intros ? [= <- _]|discriminate]].
  destruct (kubernetesNewForConfig env cfg') as [client|e] eqn:Hnew;
    [|split; [|split]; [by intros ? [= <- _]|by intros ? [= <- _]|discriminate]].
  assert (Hbuilt : exists cfg0 cfg0',
            Ok cfg = Ok cfg0 /\
            resolveClientConfig env (buildCmdConfig (Some authInfo) cfg0) = Ok cfg0' /\
            kubernetesNewForConfig env cfg0' = Ok client) by eauto.
  destruct (ServerVersion client) as [version|e] eqn:Hversion.
  - destruct (CreateTokenReview client _) as [reviewed|e] eqn:Hreview.
    + split; [|split]; [discriminate|discriminate|]. intros [= <-].
      exists client. split; [done|]. split; [eauto|]. left. eauto.
    + destruct (IsForbidden e) eqn:Hf.
      * split; [|split]; [discriminate|discriminate|]. intros [= <-].
        exists client. split; [done|]. split; [eauto|]. right. eauto.
      * split; [|split]; [by intros ? [= <- _]|by intros ? [= <- _]|discriminate].
  - destruct (IsForbidden e) eqn:Hf.
    + split; [|split]; [|intros err [= <- <-] _|discriminate].
      * intros err [= <- <-]. congruence.
      * exists client. by repeat split.
    + split; [|split]; [by intros ? [= <- _]|by intros ? [= <- _]|discriminate].
Qed.

Lemma HasAccess_outcomes_witness :
  exists client,
    probeClient (Sample.env Sample.kube) (Sample.manager None) (bearerOnly "abc")
      client /\
    (exists version, ServerVersion client = Ok version) /\
    ((exists reviewed,
        CreateTokenReview client
          {| ReviewToken := "abc"; Username := EmptyString |} = Ok reviewed /\
        "dashboard" = getUsername (Username reviewed)) \/
     (exists err,
        CreateTokenReview client
          {| ReviewToken := "abc"; Username := EmptyString |} = Err err /\
        IsForbidden err = true /\
        "dashboard" = getUsernameFromErrorText (errorText err))).
Proof.
  apply (proj2 (proj2 (HasAccess_outcomes (Sample.env Sample.kube)
                         (Sample.manager None) (bearerOnly "abc") "dashboard"))).
  vm_compute. reflexivity.
Defined.

Lemma buildCmdConfig_consistent_witness :
  Clusters (buildCmdConfig None Sample.config) !! "other" = None.
Proof.
  destruct (buildCmdConfig_consistent None Sample.config)
    as (context & cluster & _ & _ & _ & _ & _ & _ & _ & Honly).
  apply (Honly "other"). vm_compute. discriminate.
Defined.

(** ** Start-up *)

Lemma buildConfigFromFlagsAt_agrees (env : Env) (self : clientManager)
    (host path : string) :
  buildConfigFromFlags env self host path
  = buildConfigFromFlagsAt env (inClusterConfig self) host path.
Proof. reflexivity. Qed.

Lemma explicit_parameters (path host : string) :
  path <> EmptyString \/ host <> EmptyString ->
  (0 <? len path) || (0 <? len host) = true /\
  (0 <? len host) || (0 <? len path) = true.
Proof.
  intros [H|H]; apply len_pos_true in H; rewrite H; by rewrite ?orb_true_r.
Qed.

(** X11. Started with neither an explicit path nor an explicit host, and
    outside a cluster, the manager panics with the Invalid error before any
    client is constructed; the log tells why the in-cluster configuration
    is missing. *)
Theorem NewClientManager_without_configuration (env : Env) (boot : Startup)
    (e : error) :
  InClusterConfig boot = Err e ->
  NewClientManager env boot EmptyString EmptyString
  = (Fatal (StatusError StatusReasonInvalid "could not create client config"),
     ["Using in-cluster config to connect to apiserver";
      "Could not init in cluster config: " +:+ errorText e]).
Proof.
  intros He. unfold NewClientManager, initInClusterConfig. cbn. by rewrite He.
Qed.

Lemma NewClientManager_without_configuration_witness :
  fst (NewClientManager (Sample.env Sample.kube) SampleStartup.standalone
         EmptyString EmptyString)
  = Fatal (StatusError StatusReasonInvalid "could not create client config").
Proof.
  rewrite (NewClientManager_without_configuration (Sample.env Sample.kube)
             SampleStartup.standalone (PlainError "not in a cluster") eq_refl).
  reflexivity.
Defined.

(** X12. Started with an explicit path or host, the manager never asks for
    the in-cluster configuration: the outcome is the same whether or not
    the process runs in a cluster. If it starts, it is not in in-cluster
    mode, its signing key is the generated one, and its insecure
    configuration is the loaded one with the defaults applied. *)
Theorem NewClientManager_explicit (env : Env) (boot : Startup)
    (path host : string) :
  path <> EmptyString \/ host <> EmptyString ->
  (forall boot',
     GenerateCSRFKey boot' = GenerateCSRFKey boot ->
     NewClientManager env boot' path host = NewClientManager env boot path host) /\
  (forall self logged,
     NewClientManager env boot path host = (Started self, logged) ->
     inClusterConfig self = None /\
     isRunningInCluster self = false /\
     CSRFKey self = GenerateCSRFKey boot /\
     logged = ["Skipping in-cluster config"; "Using random key for csrf signing"] /\
     exists base,
       loadClientConfig env path host = Ok base /\
       insecureConfig self = Some (initConfig env base)).
Proof.
  intros [Hph Hhp]%explicit_parameters.
  unfold NewClientManager, initInClusterConfig, initInsecureClients,
    initInsecureConfig, buildConfigFromFlagsAt, initCSRFKey.
  rewrite Hhp, Hph. split.
  - intros boot' Hkey.
    destruct (loadClientConfig env path host) as [base|]; [|done].
    destruct (kubernetesNewForConfig env _); [|done].
    destruct (apiextensionsNewForConfig env _); [|done].
    destruct (pluginNewForConfig env _); [|done].
    cbn. by rewrite Hkey.
  - intros self logged.
    destruct (loadClientConfig env path host) as [base|]; [|discriminate].
    destruct (kubernetesNewForConfig env _); [|discriminate].
    destruct (apiextensionsNewForConfig env _); [|discriminate].
    destruct (pluginNewForConfig env _); [|discriminate].
    cbn. intros [= <- <-]. cbn. repeat split. eauto.
Qed.

Lemma NewClientManager_explicit_witness :
  exists self logged,
    NewClientManager (Sample.env Sample.kube) SampleStartup.inCluster
      EmptyString "https://cluster.local" = (Started self, logged) /\
    CSRFKey self = "random" /\ inClusterConfig self = None.
Proof.
  destruct (NewClientManager (Sample.env Sample.kube) SampleStartup.inCluster
              EmptyString "https://cluster.local") as [[self|e] logged] eqn:Hnew.
  - exists self, logged. split; [reflexivity|].
    assert (Hexplicit : EmptyString <> EmptyString
                        \/ "https://cluster.local" <> EmptyString)
      by (right; discriminate).
    destruct (NewClientManager_explicit (Sample.env Sample.kube)
                SampleStartup.inCluster EmptyString "https://cluster.local"
                Hexplicit) as [_ Hstarted].
    destruct (Hstarted self logged Hnew) as (Hcluster & _ & Hkey & _).
    split; [exact Hkey|exact Hcluster].
  - discriminate Hnew.
Defined.

(** X13. Started in a cluster without explicit parameters, a manager that
    comes up keeps one configuration in two fields: the in-cluster
    configuration and the insecure configuration are the same, with the
    defaults applied; the insecure client is built from it, and the
    signing key is the token read through that client. *)
Theorem NewClientManager_in_cluster (env : Env) (boot : Startup)
    (base : RestConfig) (self : clientManager) (logged : list string) :
  InClusterConfig boot = Ok base ->
  NewClientManager env boot EmptyString EmptyString = (Started self, logged) ->
  inClusterConfig self = Some (initConfig env base) /\
  insecureConfig self = inClusterConfig self /\
  isRunningInCluster self = true /\
  kubernetesNewForConfig env (initConfig env base) = Ok (insecureClient self) /\
  CSRFKey self = CsrfToken boot (insecureClient self) /\
  logged = ["Using in-cluster config to connect to apiserver";
            "Using secret token for csrf signing"].
Proof.
  intros Hbase.
  unfold NewClientManager, initInClusterConfig, initInsecureClients,
    initInsecureConfig, buildConfigFromFlagsAt, initCSRFKey.
  cbn. rewrite Hbase.
  destruct (kubernetesNewForConfig env _) eqn:Hk; [|discriminate].
  destruct (apiextensionsNewForConfig env _); [|discriminate].
  destruct (pluginNewForConfig env _); [|discriminate].
  cbn. intros [= <- <-]. cbn. by repeat split.
Qed.

Lemma NewClientManager_in_cluster_witness :
  exists self logged,
    NewClientManager (Sample.env Sample.kube) SampleStartup.inCluster
      EmptyString EmptyString = (Started self, logged) /\
    CSRFKey self = "secret" /\
    insecureConfig self = inClusterConfig self.
Proof.
  destruct (NewClientManager (Sample.env Sample.kube) SampleStartup.inCluster
              EmptyString EmptyString) as [[self|e] logged] eqn:Hnew.
  - exists self, logged. split; [reflexivity|].
    destruct (NewClientManager_in_cluster (Sample.env Sample.kube)
                SampleStartup.inCluster Sample.config self logged eq_refl Hnew)
      as (_ & Hsame & _ & _ & Hkey & _).
    split; [exact Hkey|exact Hsame].
  - discriminate Hnew.
Defined.

(** X14. Every manager that [NewClientManager] returns has no decryption
    collaborator yet, keeps the two parameters it was given, holds an
    insecure configuration with the defaults applied from which its three
    insecure clients were built, and is in in-cluster mode exactly when
    both parameters are empty. *)
Theorem NewClientManager_started (env : Env) (boot : Startup)
    (path host : string) (self : clientManager) (logged : list string) :
  NewClientManager env boot path host = (Started self, logged) ->
  tokenManager self = None /\
  kubeConfigPath self = path /\ apiserverHost self = host /\
  (is_Some (inClusterConfig self) <-> path = EmptyString /\ host = EmptyString) /\
  exists cfg,
    insecureConfig self = Some cfg /\
    QPS cfg = DefaultQPS /\ Burst cfg = DefaultBurst /\
    ContentType cfg = DefaultContentType /\
    UserAgent cfg = DefaultUserAgent +:+ "/" +:+ Version env /\
    kubernetesNewForConfig env cfg = Ok (insecureClient self) /\
    apiextensionsNewForConfig env cfg = Ok (insecureAPIExtensionsClient self) /\
    pluginNewForConfig env cfg = Ok (insecurePluginClient self).
Proof.
  unfold NewClientManager, initInClusterConfig, initInsecureClients,
    initInsecureConfig, buildConfigFromFlagsAt, initCSRFKey.
  destruct path as [|c path], host as [|d host]; cbn.
  - destruct (InClusterConfig boot) as [base|]; [|discriminate].
    destruct (kubernetesNewForConfig env _) eqn:Hk; [|discriminate].
    destruct (apiextensionsNewForConfig env _) eqn:Ha; [|discriminate].
    destruct (pluginNewForConfig env _) eqn:Hp; [|discriminate].
    cbn. intros [= <- <-]. cbn. repeat split; eauto 10.
  - destruct (loadClientConfig env _ _) as [base|]; [|discriminate].
    destruct (kubernetesNewForConfig env _) eqn:Hk; [|discriminate].
    destruct (apiextensionsNewForConfig env _) eqn:Ha; [|discriminate].
    destruct (pluginNewForConfig env _) eqn:Hp; [|discriminate].
    cbn. intros [= <- <-]. cbn.
    repeat split; try done; try (by intros [? ?]); try (by intros [_ ?]);
      eauto 10.
  - destruct (loadClientConfig env _ _) as [base|]; [|discriminate].
    destruct (kubernetesNewForConfig env _) eqn:Hk; [|discriminate].
    destruct (apiextensionsNewForConfig env _) eqn:Ha; [|discriminate].
    destruct (pluginNewForConfig env _) eqn:Hp; [|discriminate].
    cbn. intros [= <- <-]. cbn.
    repeat split; try done; try (by intros [? ?]); try (by intros [? _]);
      eauto 10.
  - destruct (loadClientConfig env _ _) as [base|]; [|discriminate].
    destruct (kubernetesNewForConfig env _) eqn:Hk; [|discriminate].
    destruct (apiextensionsNewForConfig env _) eqn:Ha; [|discriminate].
    destruct (pluginNewForConfig env _) eqn:Hp; [|discriminate].
    cbn. intros [= <- <-]. cbn.
    repeat split; try done; try (by intros [? ?]); try (by intros [? _]);
      eauto 10.
Qed.

Lemma NewClientManager_started_witness :
  exists self logged,
    NewClientManager (Sample.env Sample.kube) SampleStartup.standalone
      EmptyString "https://cluster.local" = (Started self, logged) /\
    tokenManager self = None /\ apiserverHost self = "https://cluster.local".
Proof.
  destruct (NewClientManager (Sample.env Sample.kube) SampleStartup.standalone
              EmptyString "https://cluster.local") as [[self|e] logged] eqn:Hnew.
  - exists self, logged. split; [reflexivity|].
    destruct (NewClientManager_started (Sample.env Sample.kube)
                SampleStartup.standalone EmptyString "https://cluster.local"
                self logged Hnew)
      as (Htm & _ & Hhost & _).
    split; [exact Htm|exact Hhost].
  - discriminate Hnew.
Defined.

(** X15. Start-up panics exactly with the first error met on the way: no
    base configuration, then the core client, then the extensions client,
    then the plugin client, each built from the base configuration with
    the defaults applied. Nothing about the signing key is logged then. *)
Theorem NewClientManager_fatal (env : Env) (boot : Startup)
    (path host : string) (e : error) (logged : list string) :
  NewClientManager env boot path host = (Fatal e, logged) <->
  logged = snd (initInClusterConfig boot host path) /\
  let inCluster := fst (initInClusterConfig boot host path) in
  (buildConfigFromFlagsAt env inCluster host path = Err e \/
   exists base,
     buildConfigFromFlagsAt env inCluster host path = Ok base /\
     (kubernetesNewForConfig env (initConfig env base) = Err e \/
      (exists client,
         kubernetesNewForConfig env (initConfig env base) = Ok client) /\
      (apiextensionsNewForConfig env (initConfig env base) = Err e \/
       (exists client,
          apiextensionsNewForConfig env (initConfig env base) = Ok client) /\
       pluginNewForConfig env (initConfig env base) = Err e))).
Proof.
  unfold NewClientManager, initInsecureClients, initInsecureConfig.
  destruct (initInClusterConfig boot host path) as [inCluster logged0].
  cbn [fst snd].
  destruct (buildConfigFromFlagsAt env inCluster host path) as [base|e0] eqn:Hb;
    [|fatal_cases].
  destruct (kubernetesNewForConfig env (initConfig env base)) as [k|e0] eqn:Hk;
    [|fatal_cases].
  destruct (apiextensionsNewForConfig env (initConfig env base)) as [a|e0] eqn:Ha;
    [|fatal_cases].
  destruct (pluginNewForConfig env (initConfig env base)) as [p|e0] eqn:Hp;
    [|fatal_cases].
  destruct (initCSRFKey boot _ _) as [key logged1]. cbv zeta. split.
  - discriminate.
  - intros [_ Hcase]. break_results; congruence.
Qed.

Lemma NewClientManager_fatal_witness :
  NewClientManager
    {| GetCertFile := EmptyString; GetKeyFile := EmptyString;
       GetEnableInsecureLogin := false; GetEnableSkipLogin := false;
       kubernetesNewForConfig := fun _ => Err Sample.refused;
       apiextensionsNewForConfig := fun _ => Ok Sample.apiextensions;
       pluginNewForConfig := fun _ => Ok Sample.plugin;
       loadClientConfig := fun _ _ => Ok Sample.config;
       resolveClientConfig := fun _ => Ok Sample.config;
       GetExtensionsAPIRestClient := fun _ => Err Sample.refused;
       Version := "UNKNOWN" |}
    SampleStartup.inCluster EmptyString EmptyString
  = (Fatal Sample.refused, ["Using in-cluster config to connect to apiserver"]).
Proof.
  apply NewClientManager_fatal. split; [reflexivity|].
  right. exists Sample.config. split; [reflexivity|]. left. reflexivity.
Defined.

(** ** The collaborator is bound late *)

Lemma NewClientManager_fields (env : Env) (boot : Startup) (path host : string)
    (self : clientManager) (logged : list string) :
  NewClientManager env boot path host = (Started self, logged) ->
  tokenManager self = None /\
  kubeConfigPath self = path /\ apiserverHost self = host /\
  exists base,
    buildConfigFromFlagsAt env (fst (initInClusterConfig boot host path))
      host path = Ok base.
Proof.
  unfold NewClientManager, initInsecureClients, initInsecureConfig.
  destruct (initInClusterConfig boot host path) as [inCluster logged0].
  cbn [fst].
  destruct (buildConfigFromFlagsAt env inCluster host path) as [base|];
    [|discriminate].
  destruct (kubernetesNewForConfig env _); [|discriminate].
  destruct (apiextensionsNewForConfig env _); [|discriminate].
  destruct (pluginNewForConfig env _); [|discriminate].
  destruct (initCSRFKey boot _ _). intros [= <- _]. cbn. eauto.
Qed.

(** X16. A manager started with an explicit host serves a request that
    carries only the jweToken header as follows. Before a collaborator is
    set, [ClientCmdConfig] fails Unauthorized. Once [SetTokenManager] has
    bound a collaborator that decrypts the header, [ClientCmdConfig]
    returns the configuration assembled from the loaded base
    configuration, and its identity is the decrypted descriptor. Binding
    the collaborator changes nothing else in the manager. *)
Theorem opaque_token_after_binding (env : Env) (boot : Startup) (host : string)
    (self : clientManager) (logged : list string) (d : TokenManager)
    (r : Request) (info : AuthInfo) :
  host <> EmptyString ->
  NewClientManager env boot EmptyString host = (Started self, logged) ->
  HasPrefix (Header_Get (RequestHeader r) "Authorization") "Bearer " = false ->
  Decrypt d (Header_Get (RequestHeader r) JWETokenHeader) = (Some info, None) ->
  Header_Get (RequestHeader r) JWETokenHeader <> EmptyString ->
  let bound := SetTokenManager self (Some d) in
  ClientCmdConfig env self (Some r)
    = Done (Err (NewUnauthorized MsgLoginUnauthorizedError)) /\
  (exists base,
     loadClientConfig env EmptyString host = Ok base /\
     ClientCmdConfig env bound (Some r)
       = Done (Ok (buildCmdConfig (Some info) base)) /\
     AuthInfos (buildCmdConfig (Some info) base) !! DefaultCmdConfigName
       = Some (Some info)) /\
  InsecureClient bound = InsecureClient self /\
  InsecureAPIExtensionsClient bound = InsecureAPIExtensionsClient self /\
  InsecurePluginClient bound = InsecurePluginClient self /\
  InsecureConfig bound = InsecureConfig self /\
  CSRFKey bound = CSRFKey self.
Proof.
  intros Hhost Hnew Hauth Hdecrypt Hjwe bound.
  destruct (NewClientManager_fields env boot EmptyString host self logged Hnew)
    as (Htm & Hpath & Hhost' & base & Hload).
  unfold buildConfigFromFlagsAt in Hload.
  rewrite (proj2 (len_pos_true host) Hhost) in Hload. cbn [orb String.length
    Nat.ltb Nat.leb] in Hload.
  pose proof (extractTokenFromHeader_other _ Hauth) as Htoken.
  split; [|split; [|done]].
  - apply (ClientCmdConfig_extract_error env self (Some r) None).
    rewrite Htm. by apply extractAuthInfo_no_credential; [|right].
  - exists base. split; [done|]. split.
    + subst bound. unfold ClientCmdConfig, buildConfigFromFlags, SetTokenManager.
      cbn [tokenManager apiserverHost kubeConfigPath inClusterConfig].
      rewrite (extractAuthInfo_no_bearer (Some d) r Htoken).
      apply len_pos_true in Hjwe. rewrite Hjwe, Hdecrypt. cbn [andThen].
      rewrite Hpath, Hhost'. apply len_pos_true in Hhost.
      rewrite Hhost, orb_true_r. by rewrite Hload.
    + unfold buildCmdConfig. cbn [AuthInfos]. apply lookup_insert_eq.
Qed.

Lemma opaque_token_after_binding_witness :
  exists self logged,
    NewClientManager (Sample.env Sample.kube) SampleStartup.standalone
      EmptyString "https://cluster.local" = (Started self, logged) /\
    ClientCmdConfig (Sample.env Sample.kube) self (Some Sample.opaque)
      = Done (Err (NewUnauthorized MsgLoginUnauthorizedError)) /\
    CSRFKey (SetTokenManager self (Some Sample.tokens)) = CSRFKey self.
Proof.
  destruct (NewClientManager (Sample.env Sample.kube) SampleStartup.standalone
              EmptyString "https://cluster.local") as [[self|e] logged] eqn:Hnew.
  - exists self, logged. split; [reflexivity|].
    assert (Hhost : "https://cluster.local" <> EmptyString) by discriminate.
    assert (Hauth : HasPrefix
              (Header_Get (RequestHeader Sample.opaque) "Authorization") "Bearer "
              = false) by (vm_compute; reflexivity).
    assert (Hdecrypt : Decrypt Sample.tokens
              (Header_Get (RequestHeader Sample.opaque) JWETokenHeader)
              = (Some Sample.decrypted, None)) by (vm_compute; reflexivity).
    assert (Hjwe : Header_Get (RequestHeader Sample.opaque) JWETokenHeader
                   <> EmptyString) by (vm_compute; discriminate).
    destruct (opaque_token_after_binding (Sample.env Sample.kube)
                SampleStartup.standalone "https://cluster.local" self logged
                Sample.tokens Sample.opaque Sample.decrypted
                Hhost Hnew Hauth Hdecrypt Hjwe)
      as (Hbefore & _ & _ & _ & _ & _ & Hkey).
    split; [exact Hbefore|exact Hkey].
  - discriminate Hnew.
Defined.

(** ** The resource verber *)

Lemma secureWith_returns {C : Type} (env : Env)
    (newForConfig : RestConfig -> result C) (self : clientManager) (r : Request) :
  exists client, secureWith env newForConfig self (Some r) = Done client.
Proof.
  unfold secureWith, secureConfig, ClientCmdConfig.
  destruct (extractAuthInfo_returns (tokenManager self) r) as [[info err] ->].
  cbn [andThen].
  destruct err; cbn [andThen]; [eauto|].
  destruct (buildConfigFromFlags _ _ _ _); cbn [andThen]; [|eauto].
  destruct (resolveClientConfig _ _); cbn [andThen]; eauto.
Qed.

Lemma APIExtensionsClient_returns (env : Env) (self : clientManager) (r : Request) :
  exists client, APIExtensionsClient env self (Some r) = Done client.
Proof.
  unfold APIExtensionsClient. rewrite isSecureModeEnabled_Some. cbn [andThen].
  match goal with |- context [if ?b then _ else _] => destruct b end; [|eauto].
  apply secureWith_returns.
Qed.

Lemma PluginClient_returns (env : Env) (self : clientManager) (r : Request) :
  exists client, PluginClient env self (Some r) = Done client.
Proof.
  unfold PluginClient. rewrite isSecureModeEnabled_Some. cbn [andThen].
  match goal with |- context [if ?b then _ else _] => destruct b end; [|eauto].
  apply secureWith_returns.
Qed.

(** X17. [VerberClient] returns a verber exactly when the three clients of
    the request and the REST client of the extensions API can all be had,
    and the verber is assembled from them and the configuration given.
    Otherwise it returns the first error among: the core client, the
    extensions client, the plugin client, the extensions REST client. *)
Theorem VerberClient_result (env : Env) (self : clientManager) (r : Request)
    (config : option RestConfig) :
  (forall verber,
     VerberClient env self (Some r) config = Done (Ok verber) <->
     exists k8sClient apiextensionsclient pluginsclient restClient,
       Client env self (Some r) = Done (Ok k8sClient) /\
       APIExtensionsClient env self (Some r) = Done (Ok apiextensionsclient) /\
       PluginClient env self (Some r) = Done (Ok pluginsclient) /\
       GetExtensionsAPIRestClient env apiextensionsclient = Ok restClient /\
       verber = NewResourceVerber k8sClient restClient
                  (DashboardV1alpha1 pluginsclient) config) /\
  (forall e,
     VerberClient env self (Some r) config = Done (Err e) <->
     Client env self (Some r) = Done (Err e) \/
     (exists k8sClient, Client env self (Some r) = Done (Ok k8sClient)) /\
     (APIExtensionsClient env self (Some r) = Done (Err e) \/
      exists apiextensionsclient,
        APIExtensionsClient env self (Some r) = Done (Ok apiextensionsclient) /\
        (PluginClient env self (Some r) = Done (Err e) \/
         (exists pluginsclient,
            PluginClient env self (Some r) = Done (Ok pluginsclient)) /\
         GetExtensionsAPIRestClient env apiextensionsclient = Err e))).
Proof.
  unfold VerberClient.
  destruct (Client_returns env self r) as [k ->].
  destruct (APIExtensionsClient_returns env self r) as [a ->].
  destruct (PluginClient_returns env self r) as [p ->].
  cbn [andThen].
  destruct k as [k|ek]; [|verber_cases].
  cbn [andThen].
  destruct a as [a|ea]; [|verber_cases].
  cbn [andThen].
  destruct p as [p|ep]; [|verber_cases].
  destruct (GetExtensionsAPIRestClient env a) as [rc|erc] eqn:Hrc; verber_cases.
Qed.

Lemma VerberClient_result_witness :
  VerberClient (Sample.env Sample.kube) (Sample.manager None) (Some Sample.basic)
    None
  = Done (Err (NewUnauthorized MsgLoginUnauthorizedError)).
Proof.
  apply (proj2 (VerberClient_result (Sample.env Sample.kube) (Sample.manager None)
                  Sample.basic None)).
  left. vm_compute. reflexivity.
Defined.

(** ** Display names are stable *)

Lemma allBytes_app (p : ascii -> bool) (x y : string) :
  allBytes p (x +:+ y) = allBytes p x && allBytes p y.
Proof.
  induction x as [|c x IH]; [done|].
  rewrite append_String. simpl. by rewrite IH, andb_assoc.
Qed.

Lemma findFrom_usernameRe_sound (name : string) (m : submatch) :
  findFrom usernameRe 0 name = Some m ->
  exists pre a b c d post,
    occurrence name pre a b c d post /\ getUsername name = d.
Proof.
  intros Hfind.
  destruct (findFrom_Some _ _ _ _ Hfind) as (pre & suf & -> & Hat & _).
  pose proof (matchAt_usernameRe (0 + len pre) suf) as Hparse.
  destruct (parseUsername suf) as [[[[[a b] c] d] post]|] eqn:Hp; [|congruence].
  destruct Hparse as (whole & e & Hm). rewrite Hm in Hat. injection Hat as <-.
  apply parseUsername_sound in Hp as [(-> & Ha & Hb & Hc & Hd) _].
  exists pre, a, b, c, d, post. split; [by split|].
  by apply (getUsername_found _ _ _ _ _ _ _ _ Hfind).
Qed.

Lemma segment_without_shape (d : string) :
  allBytes isWordOrHyphen d = true -> ~ containsShape d.
Proof.
  intros Hd (pre & a & b & c & x & post & -> & _).
  rewrite !allBytes_app in Hd.
  apply andb_true_iff in Hd as [_ Hd]. apply andb_true_iff in Hd as [_ Hd].
  apply andb_true_iff in Hd as [Hd _]. discriminate Hd.
Qed.

(** X18. [getUsername] returns its input unchanged, or a non-empty name of
    letters, digits, underscores and hyphens; such a name holds no colon,
    so applying [getUsername] again changes nothing. *)
Theorem getUsername_stable (name : string) :
  (getUsername name = name \/ segment (getUsername name)) /\
  getUsername (getUsername name) = getUsername name.
Proof.
  assert (Hnone : forall s, ~ containsShape s -> getUsername s = s).
  { intros s Hs. destruct (findFrom usernameRe 0 s) as [m|] eqn:Hfind;
      [|by apply getUsername_not_found].
    exfalso. apply Hs.
    destruct (findFrom_usernameRe_sound s m Hfind)
      as (pre & a & b & c & d & post & Hocc & _).
    by exists pre, a, b, c, d, post. }
  destruct (findFrom usernameRe 0 name) as [m|] eqn:Hfind.
  - destruct (findFrom_usernameRe_sound name m Hfind)
      as (pre & a & b & c & d & post & (_ & _ & _ & _ & Hd) & ->).
    split; [by right|]. apply Hnone, segment_without_shape, Hd.
  - rewrite (getUsername_not_found name Hfind). split; [by left|].
    by apply getUsername_not_found.
Qed.

(** ** The username in an error text *)

Lemma run_begin {R : Type} (pos : nat) (s : string) (caps : list string)
    (k : cont R) :
  run BeginText pos s caps k = if Nat.eqb pos 0 then k pos s caps else None.
Proof. reflexivity. Qed.

Lemma run_star {R : Type} (p : ascii -> bool) (pos : nat) (s : string)
    (caps : list string) (k : cont R) :
  run (Star p) pos s caps k = star p pos s caps k.
Proof. reflexivity. Qed.

Lemma run_group {R : Type} (n : nat) (r : regexp) (pos : nat) (s : string)
    (caps : list string) (k : cont R) :
  run (Group n r) pos s caps k
  = run r pos s caps
      (fun pos' rest' caps' =>
         k pos' rest' (<[n := sliceTo (pos' - pos) s]> caps')).
Proof. reflexivity. Qed.

Lemma run_end {R : Type} (pos : nat) (s : string) (caps : list string)
    (k : cont R) :
  run EndText pos s caps k
  = match s with EmptyString => k pos s caps | String _ _ => None end.
Proof. reflexivity. Qed.

Lemma run_lit_app {R : Type} (w s : string) (pos : nat) (caps : list string)
    (k : cont R) :
  run (Lit w) pos (w +:+ s) caps k = k (pos + len w) s caps.
Proof. simpl. by rewrite HasPrefix_app, sliceFrom_app. Qed.

Lemma run_lit_inv {R : Type} (w s : string) (pos : nat) (caps : list string)
    (k : cont R) (res : R) :
  run (Lit w) pos s caps k = Some res ->
  exists y, s = w +:+ y /\ k (pos + len w) y caps = Some res.
Proof.
  simpl. destruct (HasPrefix s w) eqn:Hp; [|discriminate].
  intros Hk. exists (sliceFrom (len w) s). split; [by apply HasPrefix_split|done].
Qed.

Section Repetition.

Context {R : Type} (p : ascii -> bool).

(** A successful repetition stopped somewhere inside the run. *)
Lemma star_inv (pos : nat) (s : string) (caps : list string) (k : cont R)
    (res : R) :
  star p pos s caps k = Some res ->
  exists x y, s = x +:+ y /\ allBytes p x = true /\
              k (pos + len x) y caps = Some res.
Proof.
  revert pos. induction s as [|c s IH]; intros pos; simpl.
  - intros Hk. exists EmptyString, EmptyString. simpl.
    by rewrite Nat.add_0_r.
  - destruct (p c) eqn:Hc.
    + destruct (star p (S pos) s caps k) as [res'|] eqn:Hstar.
      * intros [= <-]. destruct (IH _ Hstar) as (x & y & -> & Hx & Hk).
        exists (String c x), y. rewrite append_String. simpl.
        rewrite Hc, Hx, Nat.add_succ_r. done.
      * intros Hk. exists EmptyString, (String c s). simpl.
        by rewrite Nat.add_0_r.
    + intros Hk. exists EmptyString, (String c s). simpl.
      by rewrite Nat.add_0_r.
Qed.

(** A repetition fails only if what follows fails at every stop. *)
Lemma star_none_inv (pos : nat) (s : string) (caps : list string) (k : cont R) :
  star p pos s caps k = None ->
  forall x y, s = x +:+ y -> allBytes p x = true ->
              k (pos + len x) y caps = None.
Proof.
  revert pos. induction s as [|c s IH]; intros pos; simpl.
  - intros Hk x y Heq _. destruct x as [|c x].
    + change (EmptyString +:+ y) with y in Heq. subst y.
      simpl. by rewrite Nat.add_0_r.
    + rewrite append_String in Heq. discriminate Heq.
  - intros Hstar x y Heq Hx. destruct x as [|c' x].
    + change (EmptyString +:+ y) with y in Heq. subst y.
      simpl. rewrite Nat.add_0_r.
      destruct (p c); [|done]. by destruct (star p (S pos) s caps k).
    + rewrite append_String in Heq. injection Heq as <- ->.
      simpl in Hx. apply andb_true_iff in Hx as [Hc Hx]. rewrite Hc in Hstar.
      destruct (star p (S pos) (x +:+ y) caps k) eqn:Hinner; [done|].
      simpl. rewrite Nat.add_succ_r. by apply (IH (S pos)).
Qed.

Lemma star_none (pos : nat) (s : string) (caps : list string) (k : cont R) :
  (forall x y, s = x +:+ y -> allBytes p x = true ->
               k (pos + len x) y caps = None) ->
  star p pos s caps k = None.
Proof.
  intros Hk. destruct (star p pos s caps k) as [res|] eqn:Hstar; [|done].
  destruct (star_inv _ _ _ _ _ Hstar) as (x & y & Heq & Hx & Hres).
  by rewrite (Hk x y Heq Hx) in Hres.
Qed.

(** A repetition stops after [a] when what follows accepts there and at no
    later stop. *)
Lemma star_backtrack (pos : nat) (a b : string) (caps : list string)
    (k : cont R) (res : R) :
  allBytes p a = true ->
  k (pos + len a) b caps = Some res ->
  (forall x y, b = x +:+ y -> x <> EmptyString -> allBytes p x = true ->
               k (pos + len a + len x) y caps = None) ->
  star p pos (a +:+ b) caps k = Some res.
Proof.
  revert pos. induction a as [|c a IH]; intros pos Ha Hk Hlater.
  - change (EmptyString +:+ b) with b. simpl in Hk, Hlater.
    rewrite Nat.add_0_r in Hk, Hlater.
    destruct b as [|c b]; simpl; [done|].
    destruct (p c) eqn:Hc; [|done].
    rewrite star_none; [done|].
    intros x y -> Hx.
    specialize (Hlater (String c x) y). rewrite append_String in Hlater.
    simpl in Hlater. rewrite Hc, Hx, Nat.add_succ_r in Hlater.
    by apply Hlater.
  - rewrite append_String. simpl in *.
    apply andb_true_iff in Ha as [Hc Ha]. rewrite Hc.
    rewrite (IH (S pos)); [done|done| |].
    + by rewrite Nat.add_succ_r in Hk.
    + intros x y Heq Hne Hx. specialize (Hlater x y Heq Hne Hx).
      by rewrite Nat.add_succ_r in Hlater.
Qed.

End Repetition.

Lemma sliceTo_app (a s : string) : sliceTo (len a) (a +:+ s) = a.
Proof.
  induction a as [|c a IH]; [by destruct s|].
  rewrite append_String. simpl. by rewrite IH.
Qed.

Lemma sliceTo_all (s : string) : sliceTo (len s) s = s.
Proof. induction s as [|c s IH]; simpl; [done|]. by rewrite IH. Qed.

Lemma sliceFrom_all (s : string) : sliceFrom (len s) s = EmptyString.
Proof. induction s as [|c s IH]; simpl; done. Qed.

Lemma allBytes_spans (p : ascii -> bool) (s : string) :
  allBytes p s = true -> takeWhile p s = s /\ dropWhile p s = EmptyString.
Proof.
  induction s as [|c s IH]; simpl; [done|].
  intros [Hc Hs]%andb_true_iff. rewrite Hc.
  destruct (IH Hs) as [-> ->]. done.
Qed.

(** Every match of the pattern covers the whole text, which then has the
    shape, and the first submatch is the user of that reading. *)
Lemma usernameFromErrorRe_sound (pos : nat) (text : string) (m : submatch) :
  matchAt usernameFromErrorRe pos text = Some m ->
  pos = 0 /\
  exists pre user post,
    forbiddenShape text pre user post /\
    m = Submatch 0 (len text) [text; user].
Proof.
  unfold matchAt, usernameFromErrorRe. intros H.
  rewrite run_seq, run_begin in H.
  destruct (Nat.eqb_spec pos 0) as [->|]; [|discriminate].
  split; [done|].
  rewrite run_seq, run_star in H.
  apply star_inv in H as (pre & y1 & -> & Hpre & H).
  rewrite run_seq in H. apply run_lit_inv in H as (y2 & -> & H).
  rewrite run_seq, run_group, run_star in H.
  apply star_inv in H as (user & y3 & -> & Huser & H).
  rewrite run_seq in H. apply run_lit_inv in H as (y4 & -> & H).
  rewrite run_seq, run_star in H.
  apply star_inv in H as (post & y5 & -> & Hpost & H).
  rewrite run_end in H. destruct y5 as [|c y5]; [|discriminate].
  rewrite append_empty_r in *.
  exists pre, user, post. split; [done|].
  injection H as <-. f_equal.
  - rewrite !len_append. fold userLit cannotLit. simpl. lia.
  - f_equal; [|f_equal].
    + match goal with |- sliceTo ?n ?s = _ =>
        replace n with (len s); [apply sliceTo_all|] end.
      rewrite !len_append. simpl. lia.
    + match goal with |- sliceTo ?n _ = _ =>
        replace n with (len user) by lia end.
      apply sliceTo_app.
Qed.

Lemma countByte_app (b : ascii) (x y : string) :
  countByte b (x +:+ y) = countByte b x + countByte b y.
Proof.
  induction x as [|c x IH]; [done|].
  rewrite append_String. simpl. rewrite IH. lia.
Qed.

Lemma countByte_zero_notQuote (x : string) :
  countByte quote x = 0 -> allBytes notQuote x = true.
Proof.
  induction x as [|c x IH]; simpl; [done|]. unfold notQuote at 1.
  destruct (Ascii.eqb c quote); simpl; [lia|]. exact IH.
Qed.

Lemma len_zero (x : string) : len x = 0 -> x = EmptyString.
Proof. by destruct x. Qed.

Lemma takeWhile_userLit (s : string) :
  takeWhile notQuote (userLit +:+ s) = " User ".
Proof. reflexivity. Qed.

Lemma countByte_userLit : countByte quote userLit = 1.
Proof. reflexivity. Qed.

Lemma countByte_cannotLit : countByte quote cannotLit = 1.
Proof. reflexivity. Qed.

Lemma replaceAll_end (fuel pos : nat) (tmpl : list string -> string) :
  replaceAll fuel usernameFromErrorRe tmpl pos EmptyString = EmptyString.
Proof.
  destruct fuel as [|fuel]; [done|]. simpl.
  destruct (matchAt usernameFromErrorRe pos EmptyString) as [m|] eqn:Hm; [|done].
  apply usernameFromErrorRe_sound in Hm as (_ & pre & user & post & (Heq & _) & _).
  apply (f_equal String.length) in Heq. rewrite !len_append in Heq.
  simpl in Heq. lia.
Qed.

(** A match at the start of the text decides the result. *)
Lemma getUsernameFromErrorText_match (text : string) (m : submatch) :
  matchAt usernameFromErrorRe 0 text = Some m ->
  exists pre user post,
    forbiddenShape text pre user post /\
    matchGroups m = [text; user] /\
    getUsernameFromErrorText text = user.
Proof.
  intros Hm.
  destruct (usernameFromErrorRe_sound _ _ _ Hm)
    as (_ & pre & user & post & Hshape & ->).
  exists pre, user, post. split; [done|]. split; [done|].
  unfold getUsernameFromErrorText, ReplaceAllString. cbn [replaceAll].
  rewrite (findFrom_here _ _ _ _ Hm). cbn [matchStart matchEnd matchGroups].
  rewrite !Nat.sub_0_r, sliceFrom_all, replaceAll_end, append_empty_r.
  reflexivity.
Qed.

(** The pattern matches every text of the shape. *)
Lemma usernameFromErrorRe_complete (text pre user post : string) :
  forbiddenShape text pre user post ->
  exists m, matchAt usernameFromErrorRe 0 text = Some m.
Proof.
  intros (-> & Hpre & Huser & Hpost).
  destruct (matchAt usernameFromErrorRe 0 _) as [m|] eqn:Hm; [eauto|].
  exfalso. unfold matchAt, usernameFromErrorRe in Hm. fold userLit cannotLit in Hm.
  rewrite run_seq, run_begin in Hm. cbn [Nat.eqb] in Hm.
  rewrite run_seq, run_star in Hm.
  pose proof (star_none_inv _ _ _ _ _ Hm pre _ eq_refl Hpre) as H1.
  cbv beta in H1. rewrite run_seq, run_lit_app in H1.
  rewrite run_seq, run_group, run_star in H1.
  pose proof (star_none_inv _ _ _ _ _ H1 user _ eq_refl Huser) as H2.
  cbv beta in H2. rewrite run_seq, run_lit_app in H2.
  rewrite run_seq, run_star in H2.
  assert (Hsplit : post = post +:+ EmptyString) by by rewrite append_empty_r.
  pose proof (star_none_inv _ _ _ _ _ H2 post _ Hsplit Hpost) as H3.
  cbv beta in H3. rewrite run_end in H3. discriminate H3.
Qed.

(** X19. [getUsernameFromError] returns the whole error text unless the
    text has the shape the pattern looks for (anything, the word User and
    a quoted name, the word cannot, anything, all on one line); when it
    has, the result is the quoted name of one such reading of the text. *)
Theorem getUsernameFromErrorText_spec (text : string) :
  ((exists pre user post, forbiddenShape text pre user post) ->
   exists pre user post,
     forbiddenShape text pre user post /\
     getUsernameFromErrorText text = user) /\
  (~ (exists pre user post, forbiddenShape text pre user post) ->
   getUsernameFromErrorText text = text).
Proof.
  split.
  - intros (pre & user & post & Hshape).
    destruct (usernameFromErrorRe_complete _ _ _ _ Hshape) as [m Hm].
    destruct (getUsernameFromErrorText_match _ _ Hm)
      as (pre' & user' & post' & Hshape' & _ & Hresult).
    by exists pre', user', post'.
  - intros Hnone.
    unfold getUsernameFromErrorText, ReplaceAllString. cbn [replaceAll].
    destruct (findFrom usernameFromErrorRe 0 text) as [m|] eqn:Hfind; [|done].
    exfalso. apply Hnone.
    destruct (findFrom_Some _ _ _ _ Hfind) as (skipped & suf & -> & Hat & _).
    destruct (usernameFromErrorRe_sound _ _ _ Hat)
      as (Hpos & pre & user & post & Hshape & _).
    assert (skipped = EmptyString) as -> by (apply len_zero; lia).
    by exists pre, user, post.
Qed.

Lemma getUsernameFromErrorText_spec_witness :
  getUsernameFromErrorText "connection refused" = "connection refused".
Proof.
  apply (proj2 (getUsernameFromErrorText_spec "connection refused")).
  intros (pre & user & post & Heq & _).
  apply (f_equal (countByte quote)) in Heq.
  rewrite !countByte_app, countByte_userLit, countByte_cannotLit in Heq.
  change (countByte quote "connection refused") with 0 in Heq. lia.
Defined.

(** What follows the quoted name cannot start in a text without a quote. *)
Lemma cannot_rejects {R : Type} (r : regexp) (pos : nat) (y : string)
    (caps : list string) (k : cont R) :
  countByte quote y = 0 ->
  run (Seq (Lit cannotLit) r) pos y caps k = None.
Proof.
  intros Hy. destruct (run _ pos y caps k) as [res|] eqn:Hrun; [|done].
  rewrite run_seq in Hrun. apply run_lit_inv in Hrun as (z & -> & _).
  rewrite countByte_app, countByte_cannotLit in Hy. lia.
Qed.

(** The literal before the quoted name cannot start later in a text whose
    name and remainder hold no quote. *)
Lemma user_rejects {R : Type} (p : ascii -> bool) (r : regexp) (pos : nat)
    (x y user post : string) (caps : list string) (k : cont R) :
  countByte quote user = 0 -> countByte quote post = 0 ->
  userLit +:+ user +:+ cannotLit +:+ post = x +:+ y ->
  x <> EmptyString ->
  run (Seq (Lit userLit) (Seq (Group 1 (Star p)) (Seq (Lit cannotLit) r)))
    pos y caps k = None.
Proof.
  intros Huser Hpost Heq Hx.
  destruct (run _ pos y caps k) as [res|] eqn:Hrun; [|done].
  exfalso. apply Hx.
  rewrite run_seq in Hrun. apply run_lit_inv in Hrun as (y2 & -> & Hrun).
  rewrite run_seq, run_group, run_star in Hrun.
  apply star_inv in Hrun as (user' & y3 & -> & _ & Hrun).
  rewrite run_seq in Hrun. apply run_lit_inv in Hrun as (y4 & -> & _).
  assert (Hcount : countByte quote x = 0).
  { apply (f_equal (countByte quote)) in Heq.
    rewrite !countByte_app, countByte_userLit, countByte_cannotLit in Heq. lia. }
  apply (f_equal (takeWhile notQuote)) in Heq.
  rewrite takeWhile_userLit in Heq.
  rewrite (takeWhile_app notQuote x) in Heq by by apply countByte_zero_notQuote.
  rewrite takeWhile_userLit in Heq.
  apply (f_equal String.length) in Heq. rewrite len_append in Heq.
  simpl in Heq. apply len_zero. lia.
Qed.

Lemma cannotLit_later (post x y : string) :
  countByte quote post = 0 ->
  cannotLit +:+ post = x +:+ y -> x <> EmptyString ->
  countByte quote y = 0.
Proof.
  intros Hpost Heq Hx. destruct x as [|c x]; [done|].
  unfold cannotLit, doubleQuote in Heq. rewrite !append_String in Heq.
  injection Heq as _ Heq.
  apply (f_equal (countByte quote)) in Heq.
  rewrite !countByte_app in Heq.
  change (countByte quote " cannot ") with 0 in Heq.
  change (countByte quote EmptyString) with 0 in Heq. lia.
Qed.

(** The longest-first search settles on the given reading when the name
    and the remainder hold no double quote. *)
Lemma usernameFromErrorRe_greedy (pre user post : string) :
  allBytes isDot pre = true -> allBytes isDot user = true ->
  allBytes isDot post = true ->
  countByte quote user = 0 -> countByte quote post = 0 ->
  exists m,
    matchAt usernameFromErrorRe 0
      (pre +:+ userLit +:+ user +:+ cannotLit +:+ post) = Some m /\
    matchGroups m !! 1 = Some user.
Proof.
  intros Hpre Huser Hpost Hquser Hqpost.
  unfold matchAt, usernameFromErrorRe. fold userLit cannotLit.
  rewrite run_seq, run_begin. cbn [Nat.eqb].
  rewrite run_seq, run_star. eexists. split.
  - apply star_backtrack; [exact Hpre| |].
    + rewrite run_seq, run_lit_app, run_seq, run_group, run_star.
      apply star_backtrack; [exact Huser| |].
      * rewrite run_seq, run_lit_app, run_seq, run_star.
        rewrite star_skip by (intros; reflexivity).
        destruct (allBytes_spans _ _ Hpost) as [-> ->].
        rewrite run_end. reflexivity.
      * intros x y Heq Hx _. apply cannot_rejects.
        by apply (cannotLit_later post x y).
    + intros x y Heq Hx _. by apply (user_rejects _ _ _ x y user post).
  - cbn [matchGroups NumSubexp Nat.add replicate].
    replace (len pre + len userLit + len user - (len pre + len userLit))
      with (len user) by lia.
    rewrite sliceTo_app. reflexivity.
Qed.

(** X20. On an error text of the shape in which neither the quoted name
    nor what follows the word cannot holds a double quote,
    [getUsernameFromError] returns exactly the quoted name, whatever
    precedes the word User. *)
Theorem getUsernameFromErrorText_user (pre user post : string) :
  allBytes isDot pre = true -> allBytes isDot user = true ->
  allBytes isDot post = true ->
  countByte quote user = 0 -> countByte quote post = 0 ->
  getUsernameFromErrorText (pre +:+ userLit +:+ user +:+ cannotLit +:+ post)
  = user.
Proof.
  intros Hpre Huser Hpost Hquser Hqpost.
  destruct (usernameFromErrorRe_greedy pre user post Hpre Huser Hpost Hquser Hqpost)
    as (m & Hm & Hgroup).
  destruct (getUsernameFromErrorText_match _ _ Hm)
    as (pre' & user' & post' & _ & Hgroups & ->).
  rewrite Hgroups in Hgroup. by injection Hgroup.
Qed.

Lemma getUsernameFromErrorText_user_witness :
  getUsernameFromErrorText
    ("pods is forbidden:" +:+ userLit +:+ "system:anonymous" +:+ cannotLit
       +:+ "list resource")
  = "system:anonymous".
Proof.
  apply getUsernameFromErrorText_user; vm_compute; reflexivity.
Defined.

(** ** The name the probe reports *)

Lemma getUsername_exact (a b c d : string) :
  segment a -> segment b -> segment c -> segment d ->
  getUsername (a +:+ ":" +:+ b +:+ ":" +:+ c +:+ ":" +:+ d) = d.
Proof.
  intros Ha Hb Hc Hd.
  pose proof (matchAt_usernameRe 0
    (a +:+ ":" +:+ b +:+ ":" +:+ c +:+ ":" +:+ d +:+ EmptyString)) as Hparse.
  rewrite parseUsername_complete in Hparse by done.
  destruct Hparse as (whole & e & Hm).
  rewrite !append_empty_r in Hm. apply findFrom_here in Hm.
  by apply (getUsername_found _ _ _ _ _ _ _ _ Hm).
Qed.

(** X21. Once the probe has its client: if the server-version call is
    refused with a Forbidden error whose message names the user in the
    usual way, [HasAccess] returns that user together with the error; if
    both calls succeed and the reviewed username has the four-segment
    shape, [HasAccess] returns its last segment and no error. *)
Theorem HasAccess_display_name (env : Env) (self : clientManager)
    (authInfo : AuthInfo) (cfg cfg' : RestConfig) (client : KubernetesInterface) :
  buildConfigFromFlags env self (apiserverHost self) (kubeConfigPath self) = Ok cfg ->
  resolveClientConfig env (buildCmdConfig (Some authInfo) cfg) = Ok cfg' ->
  kubernetesNewForConfig env cfg' = Ok client ->
  (forall pre user post,
     ServerVersion client
       = Err (StatusError StatusReasonForbidden
                (pre +:+ userLit +:+ user +:+ cannotLit +:+ post)) ->
     allBytes isDot pre = true -> allBytes isDot user = true ->
     allBytes isDot post = true ->
     countByte quote user = 0 -> countByte quote post = 0 ->
     HasAccess env self authInfo
     = (user,
        Some (StatusError StatusReasonForbidden
                (pre +:+ userLit +:+ user +:+ cannotLit +:+ post)))) /\
  (forall version reviewed a b c d,
     ServerVersion client = Ok version ->
     CreateTokenReview client
       {| ReviewToken := Token authInfo; Username := EmptyString |} = Ok reviewed ->
     Username reviewed = a +:+ ":" +:+ b +:+ ":" +:+ c +:+ ":" +:+ d ->
     segment a -> segment b -> segment c -> segment d ->
     HasAccess env self authInfo = (d, None)).
Proof.
  intros Hcfg Hresolve Hnew. unfold HasAccess. rewrite Hcfg, Hresolve, Hnew.
  split.
  - intros pre user post -> Hpre Huser Hpost Hquser Hqpost.
    cbn [IsForbidden errorText].
    destruct (usernameFromErrorRe_greedy pre user post Hpre Huser Hpost
                Hquser Hqpost) as (m & Hm & Hgroup).
    destruct (getUsernameFromErrorText_match _ _ Hm)
      as (pre' & user' & post' & _ & Hgroups & ->).
    rewrite Hgroups in Hgroup. by injection Hgroup as ->.
  - intros version reviewed a b c d -> -> -> Ha Hb Hc Hd.
    by rewrite getUsername_exact.
Qed.

Lemma HasAccess_display_name_witness :
  HasAccess (Sample.env Sample.kube) (Sample.manager None) (bearerOnly "abc")
  = ("dashboard", None).
Proof.
  assert (Hseg : forall s, allBytes isWordOrHyphen s = true ->
                           s <> EmptyString -> segment s) by (by split).
  refine (proj2 (HasAccess_display_name (Sample.env Sample.kube)
                   (Sample.manager None) (bearerOnly "abc") _ _ Sample.kube _ _ _)
            "v1.21" _ "system" "serviceaccount" "kube-system" "dashboard"
            _ _ _ _ _ _ _).
  - vm_compute. reflexivity.
  - vm_compute. reflexivity.
  - reflexivity.
  - reflexivity.
  - reflexivity.
  - reflexivity.
  - apply Hseg; [vm_compute; reflexivity|discriminate].
  - apply Hseg; [vm_compute; reflexivity|discriminate].
  - apply Hseg; [vm_compute; reflexivity|discriminate].
  - apply Hseg; [vm_compute; reflexivity|discriminate].
Defined.

(** ** The gate in insecure mode *)

(** X22. When the request is handled in insecure mode and the gate is not
    closed by the fail-closed rule (a certificate file or a key file is
    missing, or extraction returned a descriptor), [CanI] answers with the
    cluster's verdict for the shared insecure client, whatever token the
    request carries; a failed review is logged and denied. *)
Theorem CanI_insecure_mode (env : Env) (self : clientManager) (r : Request)
    (ssar : SelfSubjectAccessReview) :
  isSecureModeEnabled env self (Some r) = Done false ->
  GetCertFile env = EmptyString \/ GetKeyFile env = EmptyString \/
  (exists info err,
     extractAuthInfo (tokenManager self) (Some r) = Done (Some info, err)) ->
  CanI env self (Some r) ssar
  = match CreateSelfSubjectAccessReview (insecureClient self) ssar with
    | Ok response => Done (Allowed response, [])
    | Err err => Done (false, [err])
    end.
Proof.
  intros Hmode Hopen. unfold CanI.
  destruct (extractAuthInfo_returns (tokenManager self) r) as [[info e] Hx].
  rewrite Hx. cbn [andThen].
  assert (Hclosed : bool_decide (info = None) && (0 <? len (GetCertFile env))
                    && (0 <? len (GetKeyFile env)) = false).
  { destruct Hopen as [->| [->|(info' & err & Hsome)]].
    - by rewrite andb_false_r.
    - by rewrite andb_false_r.
    - rewrite Hx in Hsome. injection Hsome as -> _.
      by rewrite bool_decide_eq_false_2. }
  rewrite Hclosed. unfold Client. rewrite Hmode. cbn [andThen].
  unfold InsecureClient.
  by destruct (CreateSelfSubjectAccessReview (insecureClient self) ssar).
Qed.

Lemma CanI_insecure_mode_witness :
  CanI Sample.strictEnv (Sample.manager None) (Some Sample.bearer) Sample.review
  = Done (true, []).
Proof.
  refine (eq_trans (CanI_insecure_mode Sample.strictEnv (Sample.manager None)
                      Sample.bearer Sample.review _ _) _).
  - reflexivity.
  - left. reflexivity.
  - vm_compute. reflexivity.
Defined.
